(** * basic_logging: formatters, deep merge and configuration builder

    A shallow embedding of [src/basic_logging/__init__.py].  Python values
    are trees of atoms, lists and dicts; a dict is an association list in
    insertion order whose keys are strings.  The first half of the file
    holds the definitions, the second half the theorems. *)

From Stdlib Require Import ZArith Ascii DecimalString.
From stdpp Require Import base tactics option list strings.

Set Warnings "-register-all".

(** ** Python values *)

Module Py.

Inductive atom :=
| ANone
| ABool (b : bool)
| AInt (n : Z)
| AStr (s : string)
| ACls (s : string).   (* a class object, as under the "()" keys *)

Inductive value :=
| VAtom (a : atom)
| VList (xs : list value)
| VDict (kvs : list (string * value)).

Abbreviation dict := (list (string * value)).

Abbreviation VNone := (VAtom ANone).
Abbreviation VBool b := (VAtom (ABool b)).
Abbreviation VInt n := (VAtom (AInt n)).
Abbreviation VStr s := (VAtom (AStr s)).
Abbreviation VCls s := (VAtom (ACls s)).

Section Dict.
Context {V : Type}.

(* d.get(k) / d[k] *)
Fixpoint get (k : string) (d : list (string * V)) : option V :=
  match d with
  | [] => None
  | (k', v) :: d' => if String.eqb k k' then Some v else get k d'
  end.

(* k in d *)
Definition contains (k : string) (d : list (string * V)) : bool :=
  match get k d with Some _ => true | None => false end.

(* d[k] = v : an existing key keeps its position, a new key goes last *)
Fixpoint set (k : string) (v : V) (d : list (string * V))
  : list (string * V) :=
  match d with
  | [] => [(k, v)]
  | (k', v') :: d' =>
      if String.eqb k k' then (k', v) :: d' else (k', v') :: set k v d'
  end.

(* d.update(other) *)
Definition update (d other : list (string * V)) : list (string * V) :=
  fold_left (fun acc kv => set kv.1 kv.2 acc) other d.

Definition keys (d : list (string * V)) : list string := map fst d.
End Dict.

(* isinstance(v, dict) *)
Definition is_dict (v : value) : bool :=
  match v with VDict _ => true | _ => false end.

(* bool(v) *)
Definition truthy (v : value) : bool :=
  match v with
  | VAtom ANone => false
  | VAtom (ABool b) => b
  | VAtom (AInt n) => negb (n =? 0)%Z
  | VAtom (AStr s) => negb (String.eqb s "")
  | VAtom (ACls _) => true
  | VList xs => match xs with [] => false | _ => true end
  | VDict kvs => match kvs with [] => false | _ => true end
  end.

End Py.

(** ** deepmerge, on values *)

Module Merge.
Import Py.

(* The two nested loops of [deepmerge] for one override [o]:
     for k, v in other.items():
         if k in mapping and isinstance(mapping[k], dict)
                         and isinstance(v, dict):
             mapping[k] = deepmerge(mapping[k], v)
         else:
             mapping[k] = v
   The recursive call descends into [v], a value stored in the override. *)
Fixpoint merge_value (o : value) : dict → dict :=
  match o with
  | VDict items =>
      (fix loop (items : dict) (mapping : dict) : dict :=
         match items with
         | [] => mapping
         | (k, v) :: rest =>
             loop rest
               (match get k mapping with
                | Some (VDict bm) =>
                    if is_dict v then set k (VDict (merge_value v bm)) mapping
                    else set k v mapping
                | _ => set k v mapping
                end)
         end) items
  | _ => fun mapping => mapping      (* not reached: [others] are dicts *)
  end.

Definition merge_items (other mapping : dict) : dict :=
  merge_value (VDict other) mapping.

(* mapping.copy(): on values a copy is the value itself *)
Definition copy (mapping : dict) : dict := mapping.

(* def deepmerge(mapping: dict, *others: dict) *)
Definition deepmerge (mapping : dict) (others : list dict) : dict :=
  fold_left (fun m other => merge_items other m) others (copy mapping).

(* One pass of the inner loop body, with the recursion spelled as a call
   of [deepmerge] itself. *)
Definition assign (k : string) (v : value) (mapping : dict) : dict :=
  match get k mapping, v with
  | Some (VDict bm), VDict ov => set k (VDict (deepmerge bm [ov])) mapping
  | _, _ => set k v mapping
  end.

(* What ends up under a key the override carries, given what the mapping
   holds there when the key is reached. *)
Definition merged (cur : option value) (v : value) : value :=
  match cur, v with
  | Some (VDict bm), VDict ov => VDict (deepmerge bm [ov])
  | _, _ => v
  end.

(* no dict has a key twice, at any depth below dicts: a Python dict
   cannot, an association list can ([deepmerge] does not look into lists) *)
Fixpoint distinct_keys (v : value) : bool :=
  match v with
  | VDict kvs =>
      bool_decide (NoDup (keys kvs))
      && (fix all (kvs : dict) : bool :=
            match kvs with
            | [] => true
            | (_, v) :: rest => distinct_keys v && all rest
            end) kvs
  | _ => true
  end.

(* the dicts with distinct keys are closed under one override *)
Definition keeps_distinct (o : value) : Prop :=
  ∀ items m,
    o = VDict items → distinct_keys o = true →
    distinct_keys (VDict m) = true →
    distinct_keys (VDict (merge_items items m)) = true.

(* merging an override a second time changes nothing *)
Definition settles (o : value) : Prop :=
  ∀ items, o = VDict items → distinct_keys o = true →
    merge_items items items = items ∧
    ∀ m, merge_items items (merge_items items m) = merge_items items m.


End Merge.

(** ** deepmerge, on a store of objects

    Python dicts and lists are objects with an identity: a name holds a
    reference, [d.copy()] allocates a new object and [d[k] = v] writes into
    an existing one.  The store is the list of all objects allocated so
    far, a reference is an index into it. *)

Module Heap.
Import Py.

Inductive hval :=
| HAtom (a : atom)
| HRef (l : nat).

Abbreviation hdict := (list (string * hval)).

Inductive obj :=
| ODict (d : hdict)
| OList (xs : list hval).

Abbreviation heap := (list obj).

Definition alloc (h : heap) (o : obj) : heap * nat := (h ++ [o], length h).

Definition dict_at (h : heap) (l : nat) : option hdict :=
  match h !! l with
  | Some (ODict d) => Some d
  | _ => None
  end.

(* isinstance(v, dict) *)
Definition is_dict (h : heap) (v : hval) : bool :=
  match v with
  | HRef l => match h !! l with Some (ODict _) => true | _ => false end
  | HAtom _ => false
  end.
#[global] Arguments is_dict : simpl never.

(* mapping[k] = v, for the dict object at [l] *)
Definition store (h : heap) (l : nat) (k : string) (v : hval) : option heap :=
  d ← dict_at h l; Some (<[l := ODict (set k v d)]> h).

Section Loops.
(* the recursive call [deepmerge(mapping[k], v)] *)
Variable recur : heap → nat → list nat → option (heap * nat).

(* the body of the inner loop; [r] is the copy being filled *)
Definition merge_step (r : nat) (h : heap) (k : string) (v : hval)
  : option heap :=
  cur ← dict_at h r;
  match get k cur, v with
  | Some (HRef bl), HRef vl =>
      if is_dict h (HRef bl) && is_dict h (HRef vl) then
        '(h', r') ← recur h bl [vl]; store h' r k (HRef r')
      else store h r k v
  | _, _ => store h r k v
  end.

(* for k, v in other.items() *)
Fixpoint for_items (r : nat) (items : hdict) (h : heap) : option heap :=
  match items with
  | [] => Some h
  | (k, v) :: rest => h' ← merge_step r h k v; for_items r rest h'
  end.

(* for other in others; the override is never written to while its
   items are walked, so they are read once when the walk starts *)
Fixpoint for_others (r : nat) (others : list nat) (h : heap)
  : option heap :=
  match others with
  | [] => Some h
  | other :: rest =>
      items ← dict_at h other;
      h' ← for_items r items h;
      for_others r rest h'
  end.
End Loops.

(* [None]: the fuel ran out, or an argument is not a dict (Python raises
   AttributeError on [.copy()] or [.items()]). *)
Fixpoint deepmerge (fuel : nat) (h : heap) (mapping : nat)
    (others : list nat) : option (heap * nat) :=
  match fuel with
  | O => None
  | S fuel =>
      d ← dict_at h mapping;
      let '(h1, r) := alloc h (ODict d) in      (* mapping = mapping.copy() *)
      h2 ← for_others (deepmerge fuel) r others h1;
      Some (h2, r)
  end.

(* [repr X h v t]: in store [h] the value [v] is the tree [t], and no
   object at a location in [X] is visited on the way. *)
Inductive repr (X : nat → Prop) (h : heap) : hval → value → Prop :=
| repr_atom a : repr X h (HAtom a) (VAtom a)
| repr_list l xs ts :
    ¬ X l → h !! l = Some (OList xs) →
    Forall2 (repr X h) xs ts →
    repr X h (HRef l) (VList ts)
| repr_dict l d td :
    ¬ X l → h !! l = Some (ODict d) →
    Forall2 (fun x y => x.1 = y.1 ∧ repr X h x.2 y.2) d td →
    repr X h (HRef l) (VDict td).

Definition nowhere : nat → Prop := fun _ => False.

(* [keeps n h h']: going from [h] to [h'] no object is lost and the
   objects below [n] are what they were. *)
Definition keeps (n : nat) (h h' : heap) : Prop :=
  length h ≤ length h' ∧ ∀ l, l < n → h' !! l = h !! l.

Definition repr_items (X : nat → Prop) (h : heap)
  : hdict → dict → Prop :=
  Forall2 (fun x y => x.1 = y.1 ∧ repr X h x.2 y.2).

(* [h2] holds every object [h] holds outside [X], and none of them is
   at a location in [X2] *)
Definition carries (X X2 : nat → Prop) (h h2 : heap) : Prop :=
  ∀ l o, ¬ X l → h !! l = Some o → h2 !! l = Some o ∧ ¬ X2 l.

Definition avoid (r : nat) (X : nat → Prop) : nat → Prop :=
  fun l => X l ∨ l = r.

(* One override, as [deepmerge(mapping[k], v)] hands it over. *)
Definition refines (to : value) : Prop :=
  ∀ X h m o tm,
    (∀ l, X l → l < length h) →
    Py.is_dict to = true →
    repr X h (HRef o) to →
    repr X h (HRef m) (VDict tm) →
    ∃ n h',
      (∀ fuel, n ≤ fuel →
         deepmerge fuel h m [o] = Some (h', length h)) ∧
      repr X h' (HRef (length h)) (VDict (Merge.merge_value to tm)).

(* a value that is no dict: an atom, or a reference to a list *)
Definition plain (h : heap) (v : hval) : Prop :=
  match v with
  | HAtom _ => True
  | HRef l => ∃ xs, h !! l = Some (OList xs)
  end.


End Heap.

(** ** ExtendedFormatter: time stamps

    [record.created] is a float of seconds; [datetime.fromtimestamp] rounds
    it to whole microseconds, and that count of microseconds since the
    epoch is what a record carries here.  The zone of the machine, the
    conversion of a local reading back to an instant and the directives
    that the C library renders belong to the platform: they are the
    variables of the section. *)

Module Time.

Definition DEFAULT_TIME_FMT : string := "%Y-%m-%d %H:%M:%S.%f%z".

(* A datetime: the reading of the clock, in microseconds counted from
   1970-01-01 00:00:00 on that clock; [utcoffset] (seconds) is [None] for
   a naive value; [fold] tells the two readings of a repeated hour apart. *)
Record datetime := {
  wall : Z;
  utcoffset : option Z;
  fold : bool
}.

Definition usec : Z := 1000000.

Definition digits (n : Z) : string :=
  NilZero.string_of_uint (N.to_uint (Z.to_N n)).

Fixpoint zeros (n : nat) : string :=
  match n with O => "" | S n => String "0"%char (zeros n) end.

(* "%0<width>d" *)
Definition pad (width : nat) (n : Z) : string :=
  let s := digits n in zeros (width - String.length s) ++ s.

(* days since 1970-01-01 to (year, month, day), proleptic Gregorian *)
Definition civil_from_days (days : Z) : Z * Z * Z :=
  let z := (days + 719468)%Z in
  let era := (z / 146097)%Z in
  let doe := (z - era * 146097)%Z in
  let yoe := ((doe - doe / 1460 + doe / 36524 - doe / 146096) / 365)%Z in
  let doy := (doe - (365 * yoe + yoe / 4 - yoe / 100))%Z in
  let mp := ((5 * doy + 2) / 153)%Z in
  let d := (doy - (153 * mp + 2) / 5 + 1)%Z in
  let m := (if mp <? 10 then mp + 3 else mp - 9)%Z in
  let y := (yoe + era * 400 + (if m <=? 2 then 1 else 0))%Z in
  (y, m, d).

(* "%z": empty for a naive value, else sign, hours and minutes, and the
   seconds when the offset has any *)
Definition format_offset (o : option Z) : string :=
  match o with
  | None => ""
  | Some off =>
      let a := Z.abs off in
      let hh := (a / 3600)%Z in
      let mm := (a mod 3600 / 60)%Z in
      let ss := (a mod 60)%Z in
      (if (off <? 0)%Z then "-" else "+") ++ pad 2 hh ++ pad 2 mm
        ++ (if (ss =? 0)%Z then "" else pad 2 ss)
  end.

Section Platform.
(* the offset of the local zone, in seconds, at an instant *)
Variable utcoffset_at : Z → Z.
(* whether the local reading of an instant is the second of two *)
Variable fold_at : Z → bool.
(* the instant of a naive local reading *)
Variable mktime : datetime → Z.
(* the directives left to the C library and the zone names *)
Variable platform_directive : ascii → datetime → string.

(* datetime.fromtimestamp(t): naive, in local time *)
Definition fromtimestamp (t : Z) : datetime :=
  {| wall := t + usec * utcoffset_at t;
     utcoffset := None;
     fold := fold_at t |}.

(* dt.astimezone(tz); [tz] is [Some 0] for timezone.utc and [None] for
   the local zone; a naive [dt] is taken to be in local time: its offset
   is the one the local zone has at the instant of the reading *)
Definition astimezone (dt : datetime) (tz : option Z) : datetime :=
  let instant :=
    match utcoffset dt with
    | None => mktime dt
    | Some o => (wall dt - usec * o)%Z
    end in
  let myoffset :=
    match utcoffset dt with
    | None => utcoffset_at instant
    | Some o => o
    end in
  let target :=
    match tz with
    | None => utcoffset_at instant
    | Some o => o
    end in
  {| wall := (wall dt - usec * myoffset) + usec * target;
     utcoffset := Some target;
     fold := false |}.

Definition directive (c : ascii) (dt : datetime) : string :=
  let secs := (wall dt / usec)%Z in
  let '(y, m, d) := civil_from_days (secs / 86400) in
  let sod := (secs mod 86400)%Z in
  match c with
  | "Y"%char => pad 4 y
  | "m"%char => pad 2 m
  | "d"%char => pad 2 d
  | "H"%char => pad 2 (sod / 3600)
  | "M"%char => pad 2 (sod mod 3600 / 60)
  | "S"%char => pad 2 (sod mod 60)
  | "f"%char => pad 6 (wall dt mod usec)
  | "z"%char => format_offset (utcoffset dt)
  | "%"%char => "%"
  | _ => platform_directive c dt
  end.

(* dt.strftime(fmt) *)
Fixpoint strftime (fmt : string) (dt : datetime) : string :=
  match fmt with
  | EmptyString => ""
  | String "%"%char (String c rest) => directive c dt ++ strftime rest dt
  | String a rest => String a (strftime rest dt)
  end.

(* ExtendedFormatter.tz *)
Definition tz (utc : bool) : option Z := if utc then Some 0%Z else None.

(* ExtendedFormatter.formatTime; [created] is record.created *)
Definition formatTime (utc : bool) (created : Z) (datefmt : string)
  : string :=
  let dt := astimezone (fromtimestamp created) (tz utc) in
  strftime datefmt dt.
End Platform.

(* a machine whose zone has one fixed offset *)
Definition fixed_mktime (off : Z) (dt : datetime) : Z :=
  (wall dt - usec * off)%Z.

Definition no_directive (c : ascii) (dt : datetime) : string := "".

End Time.

(** ** CustomJsonFormatter: one JSON object per record *)

Module Json.
Import Py.

(* A log record: the time stamp, the interpolated message, and the other
   attributes of the record (levelname, filename, lineno, name, ...). *)
Record LogRecord := {
  created : Z;
  msg : string;
  attrs : dict
}.

(* The attributes of a CustomJsonFormatter the claims are about;
   [required_fields] are the fields the message template references. *)
Record CustomJsonFormatter := {
  utc : bool;
  datefmt : string;
  required_fields : list string;
  rename_fields : list (string * string);
  static_fields : dict
}.

(* self.static_fields = static_fields or {} *)
Definition static_or_empty (static_fields : option dict) : dict :=
  match static_fields with
  | Some ((_ :: _) as d) => d
  | _ => []
  end.

(* rename_fields.get(f, f) *)
Definition rename_key (rename : list (string * string)) (f : string)
  : string :=
  default f (get f rename).

(* record.__dict__.get(field) *)
Definition field_value (rdict : dict) (f : string) : value :=
  default VNone (get f rdict).

Section Formatter.
(* ExtendedFormatter.formatTime on the machine at hand *)
Variable formatTime : bool → Z → string → string.
Variable self : CustomJsonFormatter.

(** Modelled from the spec: [JsonFormatter.format] of the
    python-json-logger package, which the repository imports and does
    not contain, for a record whose message is a string (data model,
    section 3): before the fields are collected the record gets its
    [message], and its [asctime], rendered by [formatTime], when the
    template references it (section 4.2, step 1). *)
Definition prepare (record : LogRecord) : dict :=
  let d := set "message" (VStr (msg record)) (attrs record) in
  if bool_decide ("asctime" ∈ required_fields self)
  then set "asctime"
         (VStr (formatTime (utc self) (created record) (datefmt self))) d
  else d.

(** Modelled from the spec: [JsonFormatter.add_fields] of the
    python-json-logger package, the method [super().add_fields]
    resolves to: one entry per field the template references, under
    the renamed key when the rename map has the field, holding what the
    record has for the field (section 4.2, step 1); then every entry of
    [self.static_fields], the attribute [CustomJsonFormatter.__init__]
    has set, "overriding any same-named field produced in step 1"
    (section 4.2, step 2); the message dict, empty for a string message,
    is added last. *)
Definition JsonFormatter_add_fields (log_record rdict message_dict : dict)
  : dict :=
  update
    (update
       (fold_left
          (fun lr f =>
             set (rename_key (rename_fields self) f) (field_value rdict f) lr)
          (required_fields self) log_record)
       (static_fields self))
    message_dict.

(* def add_fields(self, log_record, record, message_dict):
       log_record.update(self.static_fields)
       super().add_fields(log_record, record, message_dict) *)
Definition add_fields (log_record rdict message_dict : dict) : dict :=
  JsonFormatter_add_fields
    (update log_record (static_fields self)) rdict message_dict.

(** Modelled from the spec: the rest of [JsonFormatter.format]: the
    fields are collected into an empty object, which is what the line
    parses back to; the message of a string record adds no entries. *)
Definition format (record : LogRecord) : dict :=
  add_fields [] (prepare record) [].
End Formatter.

(* JSON_RENAME_FIELDS, as the rename map of a formatter *)
Definition JSON_RENAME_FIELDS : list (string * string) :=
  [("asctime", "timestamp"); ("levelname", "level")].

(* does a field start here, right after "%(": a ")" after one character
   or more ([some]: one was seen), with no line feed on the way? *)
Fixpoint has_field (some : bool) (s : string) : bool :=
  match s with
  | EmptyString => false
  | String c rest =>
      if Ascii.eqb c ")" && some then true
      else if Ascii.eqb c "010" then false
      else has_field true rest
  end.

(** Modelled from the spec: the fields a message template references
    (section 4.2: the template is "used only to determine which named
    fields are referenced"; data model: a "template with named
    placeholders"); the python-json-logger package takes the name of
    every placeholder "%(name)" of the template, as in "%(levelname)s",
    a name being the shortest run of one character or more, none of them
    a line feed, that a ")" follows. *)
Fixpoint parse_from (inside : option string) (fmt : string) : list string :=
  match fmt with
  | EmptyString => []
  | String c rest =>
      match inside with
      | None =>
          match c, rest with
          | "%"%char, String "("%char rest' =>
              if has_field false rest' then parse_from (Some "") rest'
              else parse_from None rest
          | _, _ => parse_from None rest
          end
      | Some acc =>
          if Ascii.eqb c ")" && negb (String.eqb acc "")
          then acc :: parse_from None rest
          else parse_from (Some (acc +:+ String c "")) rest
      end
  end.

Definition parse (fmt : string) : list string := parse_from None fmt.

(* A template of the "%" style, written out: some text, then for each
   field its placeholder "%(name)" and the text after it, which starts
   with the conversion, as in "%(lineno)d] ". *)
Fixpoint render (fields : list (string * string)) : string :=
  match fields with
  | [] => ""
  | (name, text) :: rest => "%(" +:+ name +:+ ")" +:+ text +:+ render rest
  end.

Definition template (lead : string) (fields : list (string * string))
  : string :=
  lead +:+ render fields.

Fixpoint has_char (c : ascii) (s : string) : bool :=
  match s with
  | EmptyString => false
  | String a rest => Ascii.eqb a c || has_char c rest
  end.

(* the name of a field: not empty, no ")" and no line feed in it *)
Definition field_name (name : string) : bool :=
  negb (String.eqb name "")
  && negb (has_char ")" name) && negb (has_char "010" name).

(* the text between placeholders: no "(" in it *)
Definition literal (text : string) : bool := negb (has_char "(" text).

Definition well_formed (lead : string) (fields : list (string * string))
  : bool :=
  literal lead && forallb (fun p => field_name p.1 && literal p.2) fields.

(* CustomJsonFormatter.__init__: [rename_fields] comes with **kw *)
Definition init (utc : bool) (fmt datefmt : string)
    (static_fields : option dict) (rename_fields : list (string * string))
  : CustomJsonFormatter :=
  {| utc := utc; datefmt := datefmt;
     required_fields := parse fmt;
     rename_fields := rename_fields;
     static_fields := static_or_empty static_fields |}.

(* What a record holds for a field when [format] collects it: the time
   stamp as [formatTime] renders it, the message, or the attribute of
   the record, None when the record has no such attribute. *)
Definition record_field (formatTime : bool → Z → string → string)
    (utc : bool) (datefmt : string) (record : LogRecord) (f : string)
  : value :=
  if String.eqb f "asctime"
  then VStr (formatTime utc (created record) datefmt)
  else if String.eqb f "message" then VStr (msg record)
  else default VNone (get f (attrs record)).

(* the time stamp is of no concern *)
Definition no_clock (utc : bool) (created : Z) (datefmt : string) : string :=
  "".

End Json.

(** ** The logging substrate

    [logging.config.dictConfig] and [logging.getLogger] belong to the
    Python standard library, not to the repository.  What follows is the
    order in which [DictConfigurator.configure] (Python 3.11) checks,
    clears and writes, over the part of the process-wide state the claims
    speak of: the handler objects, the registry of named handlers and the
    loggers, with the names that hold a place for a missing parent
    logger.  Whether a formatter, filter or handler factory accepts its
    arguments is left to the oracles of the section; the filter objects,
    the parent of a logger and the emission of records are left out. *)

Module Logging.
Import Py.

Inductive error :=
| AttributeError                      (* raised by deepmerge *)
| TypeError (what : string)
| NoVersion
| UnsupportedVersion
| NoHandler (name : string)
| Unable (kind name : string).        (* ValueError("Unable to configure ...") *)

Inductive outcome (A : Type) :=
| Return (a : A)
| Raise (e : error).
Arguments Return {A} a.
Arguments Raise {A} e.

Record Handler := {
  h_class : value;            (* the "()" or the "class" entry *)
  h_level : Z;
  h_formatter : option string;
  h_kwargs : dict;            (* what is left for the constructor *)
  h_closed : bool
}.

Record Logger := {
  l_level : Z;
  l_handlers : list nat;      (* handler objects, by identity *)
  l_propagate : value;
  l_disabled : bool
}.

(* [loggers] are the root logger, under "root", and the loggers of
   [loggerDict]; [placeholders] are the names under which [loggerDict]
   holds a PlaceHolder *)
Record state := {
  objects : list Handler;           (* every handler object created *)
  registry : list (string * nat);   (* logging._handlers *)
  loggers : list (string * Logger);
  placeholders : list string
}.

Definition NOTSET : Z := 0.

Definition new_logger : Logger :=
  {| l_level := NOTSET; l_handlers := [];
     l_propagate := VBool true; l_disabled := false |}.

(* a fresh interpreter: the root logger, at WARNING *)
Definition initial : state :=
  {| objects := []; registry := [];
     loggers := [("root", {| l_level := 30; l_handlers := [];
                             l_propagate := VBool true;
                             l_disabled := false |})];
     placeholders := [] |}.

Definition nameToLevel : list (string * Z) :=
  [("CRITICAL", 50); ("FATAL", 50); ("ERROR", 40); ("WARN", 30);
   ("WARNING", 30); ("INFO", 20); ("DEBUG", 10); ("NOTSET", 0)]%Z.

(* logging._checkLevel *)
Definition checkLevel (level : value) : option Z :=
  match level with
  | VAtom (AInt n) => Some n
  | VAtom (ABool b) => Some (if b then 1 else 0)%Z
  | VAtom (AStr s) => get s nameToLevel
  | _ => None
  end.

(* the key of a logger: getLogger("") and getLogger("root") are the root *)
Definition logger_key (name : string) : string :=
  if String.eqb name "" then "root" else name.

(* the indices of the "." of a name, the last one first *)
Fixpoint dots_from (i : nat) (s : string) (found : list nat) : list nat :=
  match s with
  | EmptyString => found
  | String c rest =>
      dots_from (S i) rest (if Ascii.eqb c "." then i :: found else found)
  end.

(* i = name.rfind("."), then i = name.rfind(".", 0, i - 1), while i > 0:
   of the indices [ds], the last first, those the loop of _fixupParents
   stops at; [bound] is the end of the search *)
Fixpoint stops (bound : nat) (ds : list nat) : list nat :=
  match ds with
  | [] => []
  | d :: ds' =>
      if (0 <? d) && (d <? bound) then d :: stops (d - 1) ds'
      else stops bound ds'
  end.

(* the names name[:i] above a logger, the nearest first *)
Definition ancestors (name : string) : list string :=
  map (fun i => String.substring 0 i name)
      (stops (String.length name) (dots_from 0 name [])).

(* Manager._fixupParents: a place is held under every name above the new
   logger, up to the nearest name that is a logger *)
Fixpoint fixupParents (loggers : list (string * Logger))
    (above : list string) (held : list string) : list string :=
  match above with
  | [] => held
  | p :: rest =>
      if bool_decide (p ≠ "root") && contains p loggers then held
      else fixupParents loggers rest
             (if bool_decide (p ∈ held) then held else held ++ [p])
  end.

(* logging.getLogger(name): the logger is created when it is missing,
   in the place held for it when there is one *)
Definition getLogger (name : string) (st : state) : state * string :=
  let key := logger_key name in
  match get key (loggers st) with
  | Some _ => (st, key)
  | None =>
      let loggers' := set key new_logger (loggers st) in
      ({| objects := objects st; registry := registry st;
          loggers := loggers';
          placeholders :=
            fixupParents loggers' (ancestors key)
              (filter (fun p => p ≠ key) (placeholders st)) |}, key)
  end.

Definition M (A : Type) : Type := state → state * outcome A.

Definition ret {A} (a : A) : M A := fun st => (st, Return a).
Definition raise {A} (e : error) : M A := fun st => (st, Raise e).
Definition bind {A B} (m : M A) (k : A → M B) : M B :=
  fun st =>
    let '(st1, r) := m st in
    match r with
    | Return a => k a st1
    | Raise e => (st1, Raise e)
    end.
Definition modify (f : state → state) : M unit :=
  fun st => (f st, Return tt).
Definition lift {A} (r : outcome A) : M A := fun st => (st, r).

Notation "'do' x <- m ; k" := (bind m (fun x => k))
  (at level 10, x name, m at level 99, k at level 200).
Notation "m ;; k" := (bind m (fun _ => k))
  (at level 100, right associativity).

Fixpoint each {A} (f : A → M unit) (l : list A) : M unit :=
  match l with
  | [] => ret tt
  | x :: l => f x ;; each f l
  end.

(* sorted(keys) *)
Fixpoint insert_sorted (k : string) (l : list string) : list string :=
  match l with
  | [] => [k]
  | k' :: l' => if String.leb k k' then k :: l else k' :: insert_sorted k l'
  end.
Definition sorted (l : list string) : list string :=
  foldr insert_sorted [] l.

(* iterating over a value: the items of a list, the keys of a dict, the
   characters of a string; nothing else can be iterated *)
Fixpoint chars (s : string) : list value :=
  match s with
  | EmptyString => []
  | String a s => VStr (String a EmptyString) :: chars s
  end.
Definition iterate (v : value) : option (list value) :=
  match v with
  | VList xs => Some xs
  | VDict d => Some (map (fun k => VStr k) (keys d))
  | VAtom (AStr s) => Some (chars s)
  | _ => None
  end.

(* config.get(key, {}), about to be iterated and indexed by name *)
Definition section (cfg : dict) (key : string) : outcome dict :=
  match get key cfg with
  | None => Return []
  | Some (VDict d) => Return d
  | Some v =>
      match iterate v with
      | Some [] => Return []
      | Some (_ :: _) => Raise (Unable key "")
      | None => Raise (TypeError key)
      end
  end.

Definition without (ks : list string) (d : dict) : dict :=
  filter (fun kv => kv.1 ∉ ks) d.

(* the value, unless the key is missing or holds None *)
Definition not_none (v : option value) : option value :=
  match v with
  | Some (VAtom ANone) | None => None
  | Some v => Some v
  end.

(* the value, when it is truthy *)
Definition when_truthy (v : option value) : option value :=
  match v with
  | Some v => if truthy v then Some v else None
  | None => None
  end.

Section Oracles.
(* does the factory of a formatter, of a filter accept the entry (a dict)? *)
Variable formatter_ok : value → bool.
Variable filter_ok : value → bool.
(* do the class or factory of a handler resolve and accept what is
   left of the entry?  (The keys that are no identifiers are not sifted
   out of the arguments here.) *)
Variable handler_ok : dict → bool.
(* does add_filters find every filter it is asked for? *)
Variable add_filters_ok : value → dict → bool.

Definition level_of (d : dict) : outcome (option Z) :=
  match not_none (get "level" d) with
  | None => Return None
  | Some v =>
      match checkLevel v with
      | Some n => Return (Some n)
      | None => Raise (TypeError "level")
      end
  end.

Definition filters_of (filters : dict) (d : dict) : bool :=
  match when_truthy (get "filters" d) with
  | Some f => add_filters_ok f filters
  | None => true
  end.

(* result = factory(...): a new handler object *)
Definition create (h : Handler) : M nat :=
  fun st =>
    ({| objects := objects st ++ [h]; registry := registry st;
        loggers := loggers st; placeholders := placeholders st |},
     Return (length (objects st))).

(* handler.setLevel(n) *)
Definition set_level (id : nat) (n : Z) : M unit :=
  modify (fun st =>
    {| objects := alter (fun h => {| h_class := h_class h;
                                     h_level := n;
                                     h_formatter := h_formatter h;
                                     h_kwargs := h_kwargs h;
                                     h_closed := h_closed h |})
                    id (objects st);
       registry := registry st;
       loggers := loggers st; placeholders := placeholders st |}).

(* DictConfigurator.configure_handler: the formatter is looked up and
   the class resolved, the factory makes the handler, which gets its
   formatter, and only then are the level checked and set and the
   filters added: when one of these fails the handler is there *)
Definition configure_handler (formatters filters : dict) (name : string)
    (entry : value) : M nat :=
  let failed {A} : M A := raise (Unable "handler" name) in
  match entry with
  | VDict d =>
      let formatter :=
        match when_truthy (get "formatter" d) with
        | None => Some None
        | Some (VAtom (AStr f)) =>
            if contains f formatters then Some (Some f) else None
        | Some _ => None
        end in
      let rest :=
        without ["formatter"; "level"; "filters"; "()"; "class"; "."] d in
      let class :=
        match get "()" d with
        | Some c => Some c
        | None => get "class" d
        end in
      match formatter, class with
      | Some fm, Some c =>
          if handler_ok (without ["formatter"; "level"; "filters"] d)
          then
            do id <- create {| h_class := c;
                               h_level := NOTSET;
                               h_formatter := fm;
                               h_kwargs := rest;
                               h_closed := false |};
            do level <- lift (match level_of d with
                              | Return level => Return level
                              | Raise _ => Raise (Unable "handler" name)
                              end);
            match level with
            | Some n => set_level id n
            | None => ret tt
            end ;;
            if filters_of filters d then ret id else failed
          else failed
      | _, _ => failed
      end
  | _ => failed
  end.

(* one round of the loop over sorted(handlers): the object is made,
   named and entered into the registry; [hmap] is config['handlers'] *)
Definition install_handler (formatters filters handlers : dict)
    (name : string) (hmap : list (string * nat))
  : M (list (string * nat)) :=
  do id <- configure_handler formatters filters name
             (default VNone (get name handlers));
  fun st =>
    ({| objects := objects st;
        registry := if String.eqb name "" then registry st
                    else set name id (registry st);
        loggers := loggers st; placeholders := placeholders st |},
     Return (set name id hmap)).

Fixpoint install_handlers (formatters filters handlers : dict)
    (names : list string) (hmap : list (string * nat))
  : M (list (string * nat)) :=
  match names with
  | [] => ret hmap
  | name :: rest =>
      do hmap' <- install_handler formatters filters handlers name hmap;
      install_handlers formatters filters handlers rest hmap'
  end.

Definition update_logger (key : string) (f : Logger → Logger) : M unit :=
  modify (fun st =>
    {| objects := objects st; registry := registry st;
       loggers := match get key (loggers st) with
                  | Some l => set key (f l) (loggers st)
                  | None => loggers st
                  end;
       placeholders := placeholders st |}).

(* logger.addHandler(config['handlers'][h]) *)
Definition add_handler (hmap : list (string * nat)) (key : string)
    (h : value) : M unit :=
  match h with
  | VAtom (AStr s) =>
      match get s hmap with
      | Some id =>
          update_logger key (fun l =>
            {| l_level := l_level l;
               l_handlers := if bool_decide (id ∈ l_handlers l)
                             then l_handlers l
                             else l_handlers l ++ [id];
               l_propagate := l_propagate l;
               l_disabled := l_disabled l |})
      | None => raise (Unable "handler" s)
      end
  | _ => raise (TypeError "handler")
  end.

(* DictConfigurator.common_logger_config *)
Definition common_logger_config (filters : dict)
    (hmap : list (string * nat)) (key : string) (d : dict)
    (incremental : bool) : M unit :=
  do level <- lift (level_of d);
  match level with
  | Some n =>
      update_logger key (fun l =>
        {| l_level := n; l_handlers := l_handlers l;
           l_propagate := l_propagate l; l_disabled := l_disabled l |})
  | None => ret tt
  end ;;
  if incremental then ret tt
  else
    update_logger key (fun l =>
      {| l_level := l_level l; l_handlers := [];
         l_propagate := l_propagate l; l_disabled := l_disabled l |}) ;;
    match when_truthy (get "handlers" d) with
    | Some hs =>
        match iterate hs with
        | Some hs => each (add_handler hmap key) hs
        | None => raise (TypeError "handlers")
        end
    | None => ret tt
    end ;;
    if filters_of filters d then ret tt else raise (Unable "filter" key).

(* DictConfigurator.configure_logger, with the wrapping of its errors *)
Definition configure_logger (filters : dict) (hmap : list (string * nat))
    (incremental : bool) (entry : string * value) : M unit :=
  fun st =>
    let '(st1, key) := getLogger entry.1 st in
    let run : M unit :=
      match entry.2 with
      | VDict d =>
          common_logger_config filters hmap key d incremental ;;
          update_logger key (fun l =>
            {| l_level := l_level l; l_handlers := l_handlers l;
               l_propagate := default (l_propagate l)
                                (not_none (get "propagate" d));
               l_disabled := false |})
      | _ => raise AttributeError
      end in
    match run st1 with
    | (st2, Raise _) => (st2, Raise (Unable "logger" entry.1))
    | r => r
    end.

(* DictConfigurator.configure_root *)
Definition configure_root (filters : dict) (hmap : list (string * nat))
    (incremental : bool) (cfg : dict) : M unit :=
  match when_truthy (get "root" cfg) with
  | None => ret tt
  | Some entry =>
      fun st =>
        let '(st1, key) := getLogger "" st in
        let run : M unit :=
          match entry with
          | VDict d => common_logger_config filters hmap key d incremental
          | _ => raise AttributeError
          end in
        match run st1 with
        | (st2, Raise _) => (st2, Raise (Unable "root" ""))
        | r => r
        end
  end.

(* _clearExistingHandlers *)
Definition clearExistingHandlers : M unit :=
  modify (fun st =>
    {| objects := map (fun h => {| h_class := h_class h;
                                   h_level := h_level h;
                                   h_formatter := h_formatter h;
                                   h_kwargs := h_kwargs h;
                                   h_closed := true |}) (objects st);
       registry := [];
       loggers := loggers st; placeholders := placeholders st |}).

Definition is_prefix (p s : string) : bool :=
  String.eqb (String.substring 0 (String.length p) s) p.

(* _handle_existing_loggers: [existing] are the names [loggerDict] had
   before the loop, [names] the keys of config['loggers']; the root
   logger is not in [loggerDict], and a PlaceHolder is left alone *)
Definition handle_existing_loggers (existing names : list string)
    (disable_existing : bool) : M unit :=
  modify (fun st =>
    {| objects := objects st; registry := registry st;
       loggers :=
         map (fun kl : string * Logger =>
                let (log, l) := kl in
                if bool_decide (log ≠ "root" ∧ log ∈ existing ∧ log ∉ names)
                then
                  if existsb (fun n => bool_decide (n ∈ existing)
                                       && is_prefix (n ++ ".") log) names
                  then (log, {| l_level := NOTSET; l_handlers := [];
                                l_propagate := VBool true;
                                l_disabled := l_disabled l |})
                  else (log, {| l_level := l_level l;
                                l_handlers := l_handlers l;
                                l_propagate := l_propagate l;
                                l_disabled := disable_existing |})
                else kl)
             (loggers st);
       placeholders := placeholders st |}).

(* the incremental branch, for one handler *)
Definition adjust_handler (handlers : dict) (name : string) : M unit :=
  fun st =>
    match get name (registry st) with
    | None => (st, Raise (NoHandler name))
    | Some id =>
        match get name handlers with
        | Some (VDict d) =>
            match when_truthy (get "level" d) with
            | None => (st, Return tt)
            | Some v =>
                match checkLevel v with
                | None => (st, Raise (Unable "handler" name))
                | Some n =>
                    ({| objects :=
                          alter (fun h => {| h_class := h_class h;
                                             h_level := n;
                                             h_formatter := h_formatter h;
                                             h_kwargs := h_kwargs h;
                                             h_closed := h_closed h |})
                            id (objects st);
                        registry := registry st;
                        loggers := loggers st;
                        placeholders := placeholders st |}, Return tt)
                end
            end
        | _ => (st, Raise (Unable "handler" name))
        end
    end.

(* dictConfig(config) *)
Definition dictConfig (cfg : dict) : M unit :=
  match get "version" cfg with
  | None => raise NoVersion
  | Some v =>
      if negb (match v with
               | VAtom (AInt 1) | VAtom (ABool true) => true
               | _ => false
               end)
      then raise UnsupportedVersion
      else if truthy (default (VBool false) (get "incremental" cfg)) then
        do handlers <- lift (section cfg "handlers");
        each (adjust_handler handlers) (keys handlers) ;;
        do loggers <- lift (section cfg "loggers");
        each (configure_logger [] [] true) loggers ;;
        configure_root [] [] true cfg
      else
        let disable_existing :=
          truthy (default (VBool true)
                    (get "disable_existing_loggers" cfg)) in
        clearExistingHandlers ;;
        do formatters <- lift (section cfg "formatters");
        each (fun kv : string * value =>
                if Py.is_dict kv.2 && formatter_ok kv.2 then ret tt
                else raise (Unable "formatter" kv.1)) formatters ;;
        do filters <- lift (section cfg "filters");
        each (fun kv : string * value =>
                if Py.is_dict kv.2 && filter_ok kv.2 then ret tt
                else raise (Unable "filter" kv.1)) filters ;;
        do handlers <- lift (section cfg "handlers");
        do hmap <- install_handlers formatters filters handlers
                     (sorted (keys handlers)) [];
        do loggers <- lift (section cfg "loggers");
        do existing <- (fun st =>
                          (st, Return (filter (fun k => k ≠ "root")
                                         (keys (Logging.loggers st))
                                       ++ placeholders st)));
        each (configure_logger filters hmap false) loggers ;;
        handle_existing_loggers existing (keys loggers) disable_existing ;;
        configure_root filters hmap false cfg
  end.
End Oracles.

Definition always {A} (x : A) : bool := true.
Definition always2 {A B} (x : A) (y : B) : bool := true.

(* errors other than those of the version check *)
Definition late (e : error) : Prop :=
  e ≠ NoVersion ∧ e ≠ UnsupportedVersion.

Definition raises_late {A} (m : M A) : Prop :=
  ∀ st st' e, m st = (st', Raise e) → late e.

(* the closed handlers [_clearExistingHandlers] leaves *)
Definition closed (h : Handler) : Handler :=
  {| h_class := h_class h; h_level := h_level h;
     h_formatter := h_formatter h; h_kwargs := h_kwargs h;
     h_closed := true |}.

(* what [dictConfig] makes of a logger there was, [n] being the one logger
   of the document and [disable] its disable_existing_loggers *)
Definition aside (n : string) (existing : list string) (disable : bool)
    (k : string) (l : Logger) : Logger :=
  if bool_decide (k ≠ "root" ∧ k ∈ existing ∧ k ≠ n) then
    if bool_decide (n ∈ existing) && is_prefix (n ++ ".") k
    then {| l_level := NOTSET; l_handlers := [];
            l_propagate := VBool true; l_disabled := l_disabled l |}
    else {| l_level := l_level l; l_handlers := l_handlers l;
            l_propagate := l_propagate l; l_disabled := disable |}
  else l.


End Logging.

(** ** configure_logging *)

Module Config.
Import Py Merge Logging.

Definition JSON_RENAME_FIELDS : value :=
  VDict [("asctime", VStr "timestamp"); ("levelname", VStr "level")].

Definition DEFAULT_FMT : string :=
  "%(asctime)s %(levelname)s [%(filename)s:%(lineno)d] %(message)s".

Record arguments := {
  name : string;
  level : value;
  fmt : string;
  time_fmt : string;
  utc : bool;
  json : bool;
  rename_fields : value;
  static_fields : value;
  extra : value
}.

(* configure_logging(name) *)
Definition defaults (name : string) : arguments :=
  {| name := name; level := VStr "INFO"; fmt := DEFAULT_FMT;
     time_fmt := Time.DEFAULT_TIME_FMT; utc := true; json := true;
     rename_fields := JSON_RENAME_FIELDS; static_fields := VNone;
     extra := VNone |}.

Definition with_extra (a : arguments) (extra : value) : arguments :=
  {| name := name a; level := level a; fmt := fmt a;
     time_fmt := time_fmt a; utc := utc a; json := json a;
     rename_fields := rename_fields a; static_fields := static_fields a;
     extra := extra |}.

(* the dict literal [cfg] *)
Definition document (a : arguments) : dict :=
  let formatter := if json a then "json" else "simple" in
  [("version", VInt 1);
   ("disable_existing_loggers", VBool false);
   ("formatters",
    VDict [("simple",
            VDict [("()", VCls "ExtendedFormatter");
                   ("utc", VBool (utc a));
                   ("format", VStr (fmt a));
                   ("datefmt", VStr (time_fmt a))]);
           ("json",
            VDict [("()", VCls "CustomJsonFormatter");
                   ("format", VStr (fmt a));
                   ("datefmt", VStr (time_fmt a));
                   ("utc", VBool (utc a));
                   ("rename_fields", rename_fields a);
                   ("static_fields", static_fields a)])]);
   ("handlers",
    VDict [("console",
            VDict [("class", VStr "logging.StreamHandler");
                   ("level", level a);
                   ("formatter", VStr formatter);
                   ("stream", VStr "ext://sys.stdout")])]);
   ("loggers",
    VDict [(name a,
            VDict [("level", level a);
                   ("handlers", VList [VStr "console"])])])].

(* if extra: cfg = deepmerge(cfg, extra)
   [None]: [extra] is truthy and no dict, [extra.items()] raises *)
Definition merged_document (a : arguments) : option dict :=
  if truthy (extra a) then
    match extra a with
    | VDict e => Some (deepmerge (document a) [e])
    | _ => None
    end
  else Some (document a).

Section Substrate.
Context {state logger : Type}.
Variable dictConfig : dict → state → state * outcome unit.
Variable getLogger : string → state → state * logger.

Definition configure_logging (a : arguments) (st : state)
  : state * outcome logger :=
  match merged_document a with
  | None => (st, Raise AttributeError)
  | Some cfg =>
      match dictConfig cfg st with
      | (st1, Raise e) => (st1, Raise e)
      | (st1, Return _) =>
          let '(st2, lg) := getLogger (name a) st1 in
          (st2, Return lg)
      end
  end.
End Substrate.

(* configure_logging over the substrate above, every factory accepting *)
Definition run (a : arguments) (st : Logging.state)
  : Logging.state * outcome string :=
  configure_logging (Logging.dictConfig always always always always2)
    Logging.getLogger a st.

(* the handlers attached to a logger *)
Definition attached (st : Logging.state) (name : string) : list Handler :=
  match get (logger_key name) (loggers st) with
  | Some l => omap (fun id => objects st !! id) (l_handlers l)
  | None => []
  end.

(* a console handler on the standard output stream *)
Definition to_stdout (h : Handler) : Prop :=
  h_class h = VStr "logging.StreamHandler" ∧
  get "stream" (h_kwargs h) = Some (VStr "ext://sys.stdout").

(* an override fragment that adds a handler on the standard error stream
   and attaches it to the logger next to the console handler *)
Definition more_handlers : value :=
  VDict
    [("handlers",
      VDict [("errors",
              VDict [("class", VStr "logging.StreamHandler");
                     ("stream", VStr "ext://sys.stderr")])]);
     ("loggers",
      VDict [("app",
              VDict [("handlers",
                      VList [VStr "console"; VStr "errors"])])])].

(* the state a first, successful call leaves *)
Definition configured : Logging.state := (run (defaults "app") initial).1.

(* a second call: another level, and an override fragment that names a
   handler that does not exist *)
Definition bad_call : arguments :=
  {| name := "app"; level := VStr "DEBUG"; fmt := DEFAULT_FMT;
     time_fmt := Time.DEFAULT_TIME_FMT; utc := true; json := true;
     rename_fields := JSON_RENAME_FIELDS; static_fields := VNone;
     extra := VDict [("loggers",
                      VDict [("other",
                              VDict [("handlers",
                                      VList [VStr "missing"])])])] |}.

(* the entry of the console handler and of the named logger in [cfg] *)
Definition console_entry (level : value) (formatter : string) : value :=
  VDict [("class", VStr "logging.StreamHandler");
         ("level", level);
         ("formatter", VStr formatter);
         ("stream", VStr "ext://sys.stdout")].

Definition logger_entry (level : value) : value :=
  VDict [("level", level); ("handlers", VList [VStr "console"])].

(* the handler object [configure_handler] makes of [console_entry] *)
Definition console_handler (level : value) (formatter : string) : Handler :=
  {| h_class := VStr "logging.StreamHandler";
     h_level := default NOTSET (checkLevel level);
     h_formatter := Some formatter;
     h_kwargs := [("stream", VStr "ext://sys.stdout")];
     h_closed := false |}.

(* "formatter": "json" if json else "simple" *)
Definition formatter_name (a : arguments) : string :=
  if json a then "json" else "simple".

(* extra = {"handlers": {"console": {"level": lv}}} *)
Definition console_level (lv : value) : value :=
  VDict [("handlers", VDict [("console", VDict [("level", lv)])])].

(* the arguments [a], with another [level] *)
Definition with_level (a : arguments) (level : value) : arguments :=
  {| name := name a; level := level; fmt := fmt a;
     time_fmt := time_fmt a; utc := utc a; json := json a;
     rename_fields := rename_fields a; static_fields := static_fields a;
     extra := extra a |}.


End Config.

(** * Theorems *)

Import Py Merge.

Section DictFacts.
Context {V : Type}.
Implicit Types (d : list (string * V)) (k : string) (v : V).

Lemma get_set_eq d k v : get k (set k v d) = Some v.
Proof.
  induction d as [|[k' v'] d IH]; simpl.
  - by rewrite String.eqb_refl.
  - destruct (String.eqb k k') eqn:E; simpl; rewrite E; [done | exact IH].
Qed.

Lemma get_set_ne d k k' v : k ≠ k' → get k' (set k v d) = get k' d.
Proof.
  intros Hne. induction d as [|[k0 v0] d IH]; simpl.
  - destruct (String.eqb k' k) eqn:E; [|done].
    apply String.eqb_eq in E. congruence.
  - destruct (String.eqb k k0) eqn:E; simpl.
    + apply String.eqb_eq in E. subst k0.
      destruct (String.eqb k' k) eqn:E'; [|done].
      apply String.eqb_eq in E'. congruence.
    + by rewrite IH.
Qed.

Lemma get_None_notin d k : get k d = None ↔ k ∉ keys d.
Proof.
  induction d as [|[k' v'] d IH]; simpl.
  - split; [intros _; apply not_elem_of_nil | done].
  - destruct (String.eqb k k') eqn:E.
    + apply String.eqb_eq in E. subst. split; [done|].
      intros H. exfalso. apply H. left.
    + apply String.eqb_neq in E. rewrite IH. rewrite not_elem_of_cons.
      tauto.
Qed.

Lemma get_Some_in d k v : get k d = Some v → k ∈ keys d.
Proof.
  intros H. destruct (decide (k ∈ keys d)) as [|Hn]; [done|].
  apply get_None_notin in Hn. congruence.
Qed.
End DictFacts.

Lemma merge_items_nil mapping : merge_items [] mapping = mapping.
Proof. reflexivity. Qed.

Lemma merge_items_cons k v rest mapping :
  merge_items ((k, v) :: rest) mapping = merge_items rest (assign k v mapping).
Proof.
  unfold merge_items, assign, deepmerge, copy. simpl.
  destruct (get k mapping) as [[a|xs|bm]|]; try reflexivity.
  destruct v; reflexivity.
Qed.

Lemma deepmerge_single mapping other :
  deepmerge mapping [other] = merge_items other mapping.
Proof. reflexivity. Qed.

(** The first doctest of [deepmerge]. *)
Example deepmerge_doctest_1 :
  deepmerge
    [("foo", VStr "bar");
     ("more", VDict [("cond", VStr "true"); ("last", VInt 424)])]
    [[("num", VInt 23); ("foo", VStr "not-bar");
      ("more", VDict [("additional", VInt 333)])]]
  = [("foo", VStr "not-bar");
     ("more", VDict [("cond", VStr "true"); ("last", VInt 424);
                     ("additional", VInt 333)]);
     ("num", VInt 23)].
Proof. reflexivity. Qed.

(** The second doctest of [deepmerge]. *)
Example deepmerge_doctest_2 :
  deepmerge
    [("l0", VDict [("l1", VStr "L1"); ("l2", VStr "L2")])]
    [[("l0", VDict [("l2", VDict [("l3", VStr "L3")])])];
     [("foo", VStr "bar")]]
  = [("l0", VDict [("l1", VStr "L1"); ("l2", VDict [("l3", VStr "L3")])]);
     ("foo", VStr "bar")].
Proof. reflexivity. Qed.

Lemma get_assign_eq k v mapping :
  get k (assign k v mapping) = Some (merged (get k mapping) v).
Proof.
  unfold assign, merged.
  destruct (get k mapping) as [[a|xs|bm]|]; try apply get_set_eq.
  destruct v; apply get_set_eq.
Qed.

Lemma get_assign_ne k k' v mapping :
  k ≠ k' → get k' (assign k v mapping) = get k' mapping.
Proof.
  intros Hne. unfold assign.
  destruct (get k mapping) as [[a|xs|bm]|]; try by apply get_set_ne.
  destruct v; by apply get_set_ne.
Qed.

Lemma merge_items_get other : ∀ mapping k,
  NoDup (keys other) →
  get k (merge_items other mapping) =
    match get k other with
    | Some v => Some (merged (get k mapping) v)
    | None => get k mapping
    end.
Proof.
  induction other as [|[k0 v0] rest IH]; intros mapping k Hnd; [done|].
  rewrite merge_items_cons. simpl in Hnd. apply NoDup_cons in Hnd as [Hk0 Hnd].
  rewrite IH by done. simpl.
  destruct (String.eqb k k0) eqn:E.
  - apply String.eqb_eq in E. subst k0.
    apply get_None_notin in Hk0. rewrite Hk0. apply get_assign_eq.
  - apply String.eqb_neq in E.
    rewrite get_assign_ne by congruence. done.
Qed.

(** C2. For a base mapping and an override mapping (a dict: its keys are
    distinct), the result of [deepmerge] holds, under each key of the
    override, the recursive merge when the base value and the override
    value are both dicts and the override value itself otherwise (a list
    replaces whatever was there); a key the override lacks keeps the value
    of the base. *)
Theorem deepmerge_key_rule (base other : dict) (k : string) :
  NoDup (keys other) →
  get k (deepmerge base [other]) =
    match get k other with
    | Some v =>
        Some (match get k base, v with
              | Some (VDict bm), VDict ov => VDict (deepmerge bm [ov])
              | _, _ => v
              end)
    | None => get k base
    end.
Proof. intros Hnd. rewrite deepmerge_single. by apply merge_items_get. Qed.

Lemma deepmerge_key_rule_witness :
  get "more"
    (deepmerge
       [("foo", VStr "bar");
        ("more", VDict [("cond", VStr "true"); ("last", VList [VInt 1])])]
       [[("foo", VList [VInt 2]);
         ("more", VDict [("last", VList [VInt 3])])]])
  = Some (VDict [("cond", VStr "true"); ("last", VList [VInt 3])]).
Proof.
  rewrite (deepmerge_key_rule _ _ "more"); [reflexivity|].
  apply (bool_decide_unpack _). vm_compute. reflexivity.
Defined.

Lemma deepmerge_app (a : dict) (bs cs : list dict) :
  deepmerge (deepmerge a bs) cs = deepmerge a (bs ++ cs).
Proof. unfold deepmerge, copy. by rewrite fold_left_app. Qed.

(** C5. Merging [b] into [a] and then [c] into the result gives what one
    call with both overrides gives: [deepmerge(deepmerge(a, b), c)] equals
    [deepmerge(a, b, c)], for all nested mappings. *)
Theorem deepmerge_assoc (a b c : dict) :
  deepmerge (deepmerge a [b]) [c] = deepmerge a [b; c].
Proof. apply (deepmerge_app a [b] [c]). Qed.

(** ** The store: what [deepmerge] writes to *)

Section Frame.
Import Heap.

Lemma keeps_refl n h : keeps n h h.
Proof. split; [lia | done]. Qed.

Lemma keeps_trans n h1 h2 h3 : keeps n h1 h2 → keeps n h2 h3 → keeps n h1 h3.
Proof.
  intros [L1 A1] [L2 A2]. split; [lia|].
  intros l Hl. by rewrite A2, A1.
Qed.

Lemma keeps_le n n' h h' : n ≤ n' → keeps n' h h' → keeps n h h'.
Proof. intros Hn [L A]. split; [done|]. intros l Hl. apply A. lia. Qed.

Lemma dict_at_Some h l d : dict_at h l = Some d ↔ h !! l = Some (ODict d).
Proof.
  unfold dict_at. destruct (h !! l) as [[d'|xs]|]; naive_solver.
Qed.

Lemma dict_at_lt h l d : dict_at h l = Some d → l < length h.
Proof. intros H%dict_at_Some. by eapply lookup_lt_Some. Qed.

Lemma store_Some h l k v h' :
  store h l k v = Some h' →
  ∃ d, h !! l = Some (ODict d) ∧ h' = <[l := ODict (set k v d)]> h.
Proof.
  unfold store. destruct (dict_at h l) as [d|] eqn:E; simpl; [|done].
  intros [= <-]. exists d. by apply dict_at_Some in E.
Qed.

Lemma store_keeps n h l k v h' :
  n ≤ l → store h l k v = Some h' → keeps n h h'.
Proof.
  intros Hn (d & _ & ->)%store_Some. split.
  - by rewrite length_insert.
  - intros l' Hl'. apply list_lookup_insert_ne. lia.
Qed.

Lemma store_length h l k v h' : store h l k v = Some h' → length h' = length h.
Proof. intros (d & _ & ->)%store_Some. apply length_insert. Qed.

Section Loops.
Variable recur : heap → nat → list nat → option (heap * nat).
Hypothesis recur_keeps : ∀ h m os h' r,
  recur h m os = Some (h', r) → keeps (length h) h h' ∧ r = length h.

Lemma merge_step_keeps n r h k v h' :
  n ≤ r → r < length h →
  merge_step recur r h k v = Some h' → keeps n h h'.
Proof.
  intros Hn Hr. unfold merge_step.
  destruct (dict_at h r) as [cur|]; simpl; [|done].
  assert (∀ x, store h r k x = Some h' → keeps n h h') as Hst
    by (intros x; by apply store_keeps).
  destruct (get k cur) as [[a|bl]|]; [by apply Hst| |by apply Hst].
  destruct v as [a|vl]; [by apply Hst|].
  match goal with |- context [if ?b then _ else _] => destruct b end;
    [|by apply Hst].
  destruct (recur h bl [vl]) as [[h1 r1]|] eqn:E; simpl; [|done].
  intros Hs. apply recur_keeps in E as [K ->].
  eapply keeps_trans.
  - eapply keeps_le; [|exact K]. lia.
  - eapply store_keeps; [|exact Hs]. done.
Qed.

Lemma for_items_keeps n r items : ∀ h h',
  n ≤ r → r < length h →
  for_items recur r items h = Some h' → keeps n h h'.
Proof.
  induction items as [|[k v] rest IH]; intros h h' Hn Hr; simpl.
  - intros [= <-]. apply keeps_refl.
  - destruct (merge_step recur r h k v) as [h1|] eqn:E; simpl; [|done].
    intros Hrest. pose proof (merge_step_keeps n r h k v h1 Hn Hr E) as K.
    eapply keeps_trans; [exact K|].
    apply IH; [done| |done]. destruct K as [L _]. lia.
Qed.

Lemma for_others_keeps n r others : ∀ h h',
  n ≤ r → r < length h →
  for_others recur r others h = Some h' → keeps n h h'.
Proof.
  induction others as [|o rest IH]; intros h h' Hn Hr; simpl.
  - intros [= <-]. apply keeps_refl.
  - destruct (dict_at h o) as [items|]; simpl; [|done].
    destruct (for_items recur r items h) as [h1|] eqn:E; simpl; [|done].
    intros Hrest. pose proof (for_items_keeps n r items h h1 Hn Hr E) as K.
    eapply keeps_trans; [exact K|].
    apply IH; [done| |done]. destruct K as [L _]. lia.
Qed.

Lemma merge_step_is_dict r h k v h' x :
  r < length h →
  merge_step recur r h k v = Some h' →
  Heap.is_dict h x = true → Heap.is_dict h' x = true.
Proof.
  intros Hr Hstep. unfold merge_step in Hstep.
  destruct (dict_at h r) as [cur|]; simpl in Hstep; [|done].
  assert (∀ h1 y, store h1 r k y = Some h' →
            Heap.is_dict h1 x = true → Heap.is_dict h' x = true) as Hst.
  { intros h1 y (d & Hd & ->)%store_Some. destruct x as [a|l]; [done|].
    unfold Heap.is_dict. destruct (decide (l = r)) as [->|Hne].
    - rewrite list_lookup_insert_eq; [done|]. by eapply lookup_lt_Some.
    - by rewrite list_lookup_insert_ne. }
  destruct (get k cur) as [[a|bl]|]; [by eapply Hst| |by eapply Hst].
  destruct v as [a|vl]; [by eapply Hst|].
  destruct (Heap.is_dict h (HRef bl) && Heap.is_dict h (HRef vl));
    [|by eapply Hst].
  destruct (recur h bl [vl]) as [[h1 r1]|] eqn:E; simpl in Hstep; [|done].
  apply recur_keeps in E as [[_ A] ->]. intros Hx.
  eapply Hst; [exact Hstep|]. destruct x as [a|l]; [done|].
  unfold Heap.is_dict in *. rewrite A; [done|].
  destruct (h !! l) eqn:El; [|done]. by eapply lookup_lt_Some.
Qed.

(* the copy after one pass of the loop body: one key is assigned *)
Lemma merge_step_dict r h k v h' cur :
  r < length h →
  merge_step recur r h k v = Some h' →
  dict_at h r = Some cur →
  ∃ w, dict_at h' r = Some (set k w cur) ∧
       (∀ bl vl, get k cur = Some (HRef bl) → v = HRef vl →
                 Heap.is_dict h (HRef bl) = true →
                 Heap.is_dict h (HRef vl) = true →
                 w = HRef (length h)).
Proof.
  intros Hr Hstep Hcur.
  assert (∀ h1 x, h1 !! r = Some (ODict cur) → store h1 r k x = Some h' →
            dict_at h' r = Some (set k x cur)) as Hst.
  { intros h1 x H1 (d & Hd & ->)%store_Some.
    rewrite H1 in Hd. injection Hd as <-.
    apply dict_at_Some, list_lookup_insert_eq. by eapply lookup_lt_Some. }
  pose proof Hcur as Hcur'%dict_at_Some.
  unfold merge_step in Hstep. rewrite Hcur in Hstep. simpl in Hstep.
  destruct (get k cur) as [[a|bl]|] eqn:Hg;
    [exists v; split; [by eapply Hst | done]
    | | exists v; split; [by eapply Hst | done]].
  destruct v as [a|vl]; [exists (HAtom a); split; [by eapply Hst | done]|].
  destruct (Heap.is_dict h (HRef bl)) eqn:Eb;
    [|exists (HRef vl); split;
       [by eapply Hst | intros ?? [= <-] _ ?; congruence]].
  destruct (Heap.is_dict h (HRef vl)) eqn:Ev;
    [|exists (HRef vl); split;
       [by eapply Hst | intros ?? _ [= <-] _ ?; congruence]].
  simpl in Hstep.
  destruct (recur h bl [vl]) as [[h1 r1]|] eqn:E; simpl in Hstep; [|done].
  apply recur_keeps in E as [[_ A] ->].
  exists (HRef (length h)). split; [|done].
  eapply Hst; [|exact Hstep]. by rewrite A.
Qed.

Lemma for_items_untouched r items k : ∀ h h' cur,
  k ∉ keys items → r < length h →
  for_items recur r items h = Some h' →
  dict_at h r = Some cur →
  ∃ dfin, dict_at h' r = Some dfin ∧ get k dfin = get k cur.
Proof.
  induction items as [|[k0 v0] rest IH]; intros h h' cur Hk Hr; simpl.
  - intros [= <-] ?. by exists cur.
  - simpl in Hk. apply not_elem_of_cons in Hk as [Hne Hk].
    destruct (merge_step recur r h k0 v0) as [h1|] eqn:E; simpl; [|done].
    intros Hrest Hcur.
    destruct (merge_step_dict r h k0 v0 h1 cur Hr E Hcur) as (w & Hd1 & _).
    pose proof (merge_step_keeps 0 r h k0 v0 h1 (Nat.le_0_l _) Hr E)
      as [L _].
    destruct (IH h1 h' _ Hk ltac:(lia) Hrest Hd1) as (dfin & Hdf & Hget).
    exists dfin. split; [done|]. rewrite Hget. by apply get_set_ne.
Qed.

(* a key under which the copy and the override both hold a dict ends
   up holding a reference that did not exist before the loop *)
Lemma for_items_fresh r items k bl vl : ∀ h h' cur,
  NoDup (keys items) → r < length h →
  for_items recur r items h = Some h' →
  dict_at h r = Some cur →
  get k cur = Some (HRef bl) → get k items = Some (HRef vl) →
  Heap.is_dict h (HRef bl) = true → Heap.is_dict h (HRef vl) = true →
  ∃ dfin l, dict_at h' r = Some dfin ∧ get k dfin = Some (HRef l) ∧
            length h ≤ l.
Proof.
  induction items as [|[k0 v0] rest IH]; intros h h' cur Hnd Hr; simpl;
    [done|].
  simpl in Hnd. apply NoDup_cons in Hnd as [Hk0 Hnd].
  destruct (merge_step recur r h k0 v0) as [h1|] eqn:E; simpl; [|done].
  intros Hrest Hcur Hgc Hgi Hb Hv.
  destruct (merge_step_dict r h k0 v0 h1 cur Hr E Hcur) as (w & Hd1 & Hw).
  pose proof (merge_step_keeps 0 r h k0 v0 h1 (Nat.le_0_l _) Hr E) as [L _].
  destruct (String.eqb k k0) eqn:Ek.
  - apply String.eqb_eq in Ek. subst k0. injection Hgi as ->.
    rewrite (Hw bl vl) in Hd1 by done.
    destruct (for_items_untouched r rest k h1 h' _ Hk0 ltac:(lia) Hrest Hd1)
      as (dfin & Hdf & Hget).
    exists dfin, (length h). rewrite Hget, get_set_eq. done.
  - apply String.eqb_neq in Ek.
    destruct (IH h1 h' _ Hnd ltac:(lia) Hrest Hd1) as (dfin & l & ? & ? & ?);
      [by rewrite get_set_ne|done|by eapply merge_step_is_dict..|].
    exists dfin, l. split; [done|]. split; [done|]. lia.
Qed.
End Loops.

Lemma alloc_keeps h o : keeps (length h) h (h ++ [o]).
Proof.
  split.
  - rewrite length_app. lia.
  - intros l Hl. by apply lookup_app_l.
Qed.

Lemma deepmerge_keeps fuel : ∀ h m os h' r,
  Heap.deepmerge fuel h m os = Some (h', r) →
  keeps (length h) h h' ∧ r = length h.
Proof.
  induction fuel as [|fuel IH]; intros h m os h' r; simpl; [done|].
  destruct (dict_at h m) as [d|]; simpl; [|done].
  destruct (for_others (Heap.deepmerge fuel) (length h) os (h ++ [ODict d]))
    as [h2|] eqn:E; simpl; [|done].
  intros [= <- <-]. split; [|done].
  eapply keeps_trans; [apply alloc_keeps|].
  eapply for_others_keeps; [exact IH| | |exact E]; [done|].
  rewrite length_app. simpl. lia.
Qed.
End Frame.

(** ** The store and the values: [Heap.deepmerge] computes [Merge.deepmerge] *)

Lemma value_ind' (P : value → Prop)
    (Hatom : ∀ a, P (VAtom a))
    (Hlist : ∀ xs, Forall P xs → P (VList xs))
    (Hdict : ∀ kvs, Forall (fun kv => P kv.2) kvs → P (VDict kvs)) :
  ∀ v, P v.
Proof.
  fix IH 1. intros [a|xs|kvs].
  - apply Hatom.
  - apply Hlist. induction xs as [|x xs IHxs]; constructor; [apply IH | exact IHxs].
  - apply Hdict.
    induction kvs as [|[k v] kvs IHk]; constructor; [apply IH | exact IHk].
Qed.

Section Refinement.
Import Heap.

Lemma Forall2_pointwise {A B} (R R' : A → B → Prop) xs ys :
  Forall (fun y => ∀ x, R x y → R' x y) ys →
  Forall2 R xs ys → Forall2 R' xs ys.
Proof.
  intros HF H2. revert HF.
  induction H2 as [|x y xs ys Hxy _ IH]; intros HF; [constructor|].
  apply Forall_cons in HF as [Hy Hys]. constructor; [by apply Hy | by apply IH].
Qed.

Lemma carries_trans X1 X2 X3 h1 h2 h3 :
  carries X1 X2 h1 h2 → carries X2 X3 h2 h3 → carries X1 X3 h1 h3.
Proof.
  intros C1 C2 l o HX Hl. destruct (C1 l o HX Hl) as [Hl2 HX2].
  by apply C2.
Qed.

Lemma repr_carries t : ∀ X X2 h h2 v,
  carries X X2 h h2 → repr X h v t → repr X2 h2 v t.
Proof.
  induction t as [a|ts IH|td IH] using value_ind';
    intros X X2 h h2 v C Hr; inversion Hr; subst; [constructor|..];
    match goal with
    | HX : ¬ X ?l, Hl : h !! ?l = Some _ |- _ =>
        destruct (C l _ HX Hl) as [Hl2 HX2]
    end;
    (econstructor; [exact HX2 | exact Hl2 |]);
    (eapply Forall2_pointwise; [|eassumption]);
    (eapply Forall_impl; [exact IH|]); simpl.
  - intros t IHt x Hx. by eapply IHt.
  - intros kv IHt x [Hk Hx]. split; [done | by eapply IHt].
Qed.

Lemma repr_items_carries X X2 h h2 d td :
  carries X X2 h h2 → repr_items X h d td → repr_items X2 h2 d td.
Proof.
  intros C Hd. unfold repr_items in *. eapply Forall2_impl; [exact Hd|].
  intros x y [Hk Hr]. split; [done | by eapply repr_carries].
Qed.

Lemma repr_is_dict X h v t : repr X h v t → Heap.is_dict h v = Py.is_dict t.
Proof.
  destruct 1 as [a|l xs ts HX Hl _|l d td HX Hl _];
    unfold Heap.is_dict; simpl; by rewrite ?Hl.
Qed.

Lemma repr_items_get X h d td k :
  repr_items X h d td →
  match get k d, get k td with
  | Some v, Some t => repr X h v t
  | None, None => True
  | _, _ => False
  end.
Proof.
  induction 1 as [|[k1 v] [k2 t] d td [Hk Hr] _ IH]; simpl in *; [done|].
  subst k2. by destruct (String.eqb k k1).
Qed.

Lemma repr_items_set X h d td k v t :
  repr_items X h d td → repr X h v t →
  repr_items X h (set k v d) (set k t td).
Proof.
  intros Hd Hv.
  induction Hd as [|[k1 v1] [k2 t1] d td [Hk Hr] Hd IH]; simpl in *.
  - by constructor.
  - subst k2. destruct (String.eqb k k1); by constructor.
Qed.

Lemma carries_keeps X h h' : keeps (length h) h h' → carries X X h h'.
Proof.
  intros [_ A] l o HX Hl. split; [|done].
  rewrite A; [done|]. by eapply lookup_lt_Some.
Qed.

Lemma carries_insert r X h o :
  carries (avoid r X) (avoid r X) h (<[r := o]> h).
Proof.
  intros l o' HX Hl. split; [|done].
  rewrite list_lookup_insert_ne; [done|]. intros ->. apply HX. by right.
Qed.

Lemma carries_fresh r X h : length h ≤ r → carries X (avoid r X) h h.
Proof.
  intros Hr l o HX Hl. split; [done|]. intros [?| ->]; [done|].
  apply lookup_lt_Some in Hl. lia.
Qed.

Lemma carries_forget r X h : carries (avoid r X) X h h.
Proof. intros l o HX Hl. split; [done|]. intros ?. apply HX. by left. Qed.

(* [mapping[k] = v] on the copy *)
Lemma store_refines X r k hv tv h dcur tcur :
  h !! r = Some (ODict dcur) →
  repr (avoid r X) h hv tv →
  repr_items (avoid r X) h dcur tcur →
  ∃ h1 d1,
    store h r k hv = Some h1 ∧
    h1 !! r = Some (ODict d1) ∧
    repr_items (avoid r X) h1 d1 (set k tv tcur) ∧
    carries (avoid r X) (avoid r X) h h1 ∧ length h ≤ length h1.
Proof.
  intros Hr Hv Hd. eexists _, _. split; [|split; [|split; [|split]]].
  - unfold store, dict_at. rewrite Hr. simpl. reflexivity.
  - apply list_lookup_insert_eq. by eapply lookup_lt_Some.
  - apply repr_items_set.
    + eapply repr_items_carries; [apply carries_insert | done].
    + eapply repr_carries; [apply carries_insert | done].
  - apply carries_insert.
  - by rewrite length_insert.
Qed.

Lemma merge_step_refines X r k tv hv h dcur tcur :
  refines tv →
  (∀ l, X l → l < length h) → r < length h →
  repr (avoid r X) h hv tv →
  h !! r = Some (ODict dcur) →
  repr_items (avoid r X) h dcur tcur →
  ∃ n h1 d1,
    (∀ fuel, n ≤ fuel →
       merge_step (Heap.deepmerge fuel) r h k hv = Some h1) ∧
    h1 !! r = Some (ODict d1) ∧
    repr_items (avoid r X) h1 d1 (assign k tv tcur) ∧
    carries (avoid r X) (avoid r X) h h1 ∧ length h ≤ length h1.
Proof.
  intros Href HX Hr Hv Hcur Hd.
  (* the plain assignment [mapping[k] = v] *)
  assert (assign k tv tcur = set k tv tcur →
          (∀ fuel, merge_step (Heap.deepmerge fuel) r h k hv
                   = store h r k hv) →
          ∃ n h1 d1,
            (∀ fuel, n ≤ fuel →
               merge_step (Heap.deepmerge fuel) r h k hv = Some h1) ∧
            h1 !! r = Some (ODict d1) ∧
            repr_items (avoid r X) h1 d1 (assign k tv tcur) ∧
            carries (avoid r X) (avoid r X) h h1 ∧ length h ≤ length h1)
    as Hplain.
  { intros -> Hstep.
    destruct (store_refines X r k hv tv h dcur tcur Hcur Hv Hd)
      as (h1 & d1 & Hs & ?). exists 0, h1, d1. split; [|done].
    intros fuel _. by rewrite Hstep. }
  pose proof (repr_items_get _ _ _ _ k Hd) as Hg.
  assert (dict_at h r = Some dcur) as Hda by by apply dict_at_Some.
  unfold merge_step, assign in *. rewrite Hda in *. simpl in *.
  destruct (get k dcur) as [hb|], (get k tcur) as [tb|]; try done;
    [|by apply Hplain].
  inversion Hg as [a|bl xs ts HXb Hbl Hxs|bl bd tbm HXb Hbl Hbd]; subst.
  - by apply Hplain.
  - apply Hplain; [done|]. intros fuel.
    destruct hv as [a|vl]; [done|]. unfold Heap.is_dict. by rewrite Hbl.
  - inversion Hv as [a|vl xs ts HXv Hvl Hxs|vl vd tov HXv Hvl Hvd]; subst.
    + by apply Hplain.
    + apply Hplain; [done|]. intros fuel.
      unfold Heap.is_dict. rewrite Hvl. by rewrite andb_false_r.
    + unfold Heap.is_dict. rewrite Hbl, Hvl. simpl.
      destruct (Href (avoid r X) h bl vl tbm) as (n & h1 & Hrun & Hres);
        [intros l [?| ->]; auto|done|done|done|].
      destruct (deepmerge_keeps n h bl [vl] h1 (length h) (Hrun n (le_n _)))
        as [K _].
      pose proof (carries_keeps (avoid r X) h h1 K) as C1.
      assert (h1 !! r = Some (ODict dcur)) as Hcur1
        by (destruct K as [_ A]; by rewrite A).
      destruct (store_refines X r k (HRef (length h))
                  (VDict (merge_value (VDict tov) tbm)) h1 dcur tcur)
        as (h2 & d2 & Hs & Hr2 & Hd2 & C2 & L2);
        [done|done|by eapply repr_items_carries|].
      exists n, h2, d2. split; [|split; [done|split; [done|split]]].
      * intros fuel Hfuel. rewrite (Hrun fuel Hfuel). simpl. exact Hs.
      * by eapply carries_trans.
      * destruct K. lia.
Qed.

Lemma for_items_refines X r titems :
  Forall (fun kv => refines kv.2) titems →
  ∀ hitems h dcur tcur,
    (∀ l, X l → l < length h) → r < length h →
    repr_items (avoid r X) h hitems titems →
    h !! r = Some (ODict dcur) →
    repr_items (avoid r X) h dcur tcur →
    ∃ n h' dfin,
      (∀ fuel, n ≤ fuel →
         for_items (Heap.deepmerge fuel) r hitems h = Some h') ∧
      h' !! r = Some (ODict dfin) ∧
      repr_items (avoid r X) h' dfin (merge_items titems tcur) ∧
      carries (avoid r X) (avoid r X) h h' ∧ length h ≤ length h'.
Proof.
  induction titems as [|[k tv] trest IH];
    intros HF hitems h dcur tcur HX Hr Hitems Hcur Hd.
  - apply Forall2_nil_inv_r in Hitems as ->.
    exists 0, h, dcur. rewrite merge_items_nil.
    split; [done|]. split; [done|]. split; [done|].
    split; [|done]. by intros l o ? ?.
  - apply Forall2_cons_inv_r in Hitems
      as ([k' hv] & hrest & [Hk Hv] & Hrest & ->).
    simpl in Hk, Hv. subst k'. apply Forall_cons in HF as [Htv HF].
    destruct (merge_step_refines X r k tv hv h dcur tcur)
      as (n1 & h1 & d1 & Hrun1 & Hr1 & Hd1 & C1 & L1); [done..|].
    destruct (IH HF hrest h1 d1 (assign k tv tcur))
      as (n2 & h2 & d2 & Hrun2 & Hr2 & Hd2 & C2 & L2);
      [intros l Hl; specialize (HX l Hl); lia | lia
      | by eapply repr_items_carries | done | done |].
    exists (n1 `max` n2), h2, d2. rewrite merge_items_cons.
    split; [|split; [done|split; [done|split]]].
    + intros fuel Hfuel. simpl.
      rewrite Hrun1 by lia. simpl. apply Hrun2. lia.
    + by eapply carries_trans.
    + lia.
Qed.

Lemma for_others_refines X r tos :
  Forall (Forall (fun kv => refines kv.2)) tos →
  ∀ os h dcur tcur,
    (∀ l, X l → l < length h) → r < length h →
    Forall2 (fun o to => repr (avoid r X) h (HRef o) (VDict to)) os tos →
    h !! r = Some (ODict dcur) →
    repr_items (avoid r X) h dcur tcur →
    ∃ n h' dfin,
      (∀ fuel, n ≤ fuel →
         for_others (Heap.deepmerge fuel) r os h = Some h') ∧
      h' !! r = Some (ODict dfin) ∧
      repr_items (avoid r X) h' dfin
        (fold_left (fun m other => merge_items other m) tos tcur).
Proof.
  induction tos as [|to trest IH]; intros HF os h dcur tcur HX Hr Hos Hcur Hd.
  - apply Forall2_nil_inv_r in Hos as ->. by exists 0, h, dcur.
  - apply Forall2_cons_inv_r in Hos as (o & orest & Ho & Hrest & ->).
    apply Forall_cons in HF as [Hto HF].
    inversion Ho as [| |? items ? HXo Hlo Hitems]; subst.
    destruct (for_items_refines X r to Hto items h dcur tcur)
      as (n1 & h1 & d1 & Hrun1 & Hr1 & Hd1 & C1 & L1); [done..|].
    destruct (IH HF orest h1 d1 (merge_items to tcur))
      as (n2 & h2 & d2 & Hrun2 & Hr2 & Hd2);
      [intros l Hl; specialize (HX l Hl); lia | lia | | done | done |].
    { eapply Forall2_impl; [exact Hrest|].
      intros ? ? ?. by eapply repr_carries. }
    exists (n1 `max` n2), h2, d2. split; [|done].
    intros fuel Hfuel. simpl. unfold dict_at at 1. rewrite Hlo. simpl.
    rewrite Hrun1 by lia. simpl. apply Hrun2. lia.
Qed.

Lemma deepmerge_refines_under X h m os tm tos :
  Forall (Forall (fun kv => refines kv.2)) tos →
  (∀ l, X l → l < length h) →
  repr X h (HRef m) (VDict tm) →
  Forall2 (fun o to => repr X h (HRef o) (VDict to)) os tos →
  ∃ n h',
    (∀ fuel, n ≤ fuel →
       Heap.deepmerge fuel h m os = Some (h', length h)) ∧
    repr X h' (HRef (length h)) (VDict (Merge.deepmerge tm tos)).
Proof.
  intros HF HX Hm Hos.
  inversion Hm as [| |? dm ? HXm Hlm Hdm]; subst.
  set (r := length h). set (h1 := h ++ [ODict dm]).
  assert (carries X (avoid r X) h h1) as C.
  { eapply carries_trans; [apply (carries_fresh r); by subst r|].
    apply carries_keeps. eapply keeps_le; [|apply alloc_keeps].
    lia. }
  destruct (for_others_refines X r tos HF os h1 dm tm)
    as (n & h2 & dfin & Hrun & Hr2 & Hdfin).
  - intros l Hl. specialize (HX l Hl). subst h1. rewrite length_app. lia.
  - subst h1 r. rewrite length_app. simpl. lia.
  - eapply Forall2_impl; [exact Hos|].
    intros ? ? ?. by eapply repr_carries.
  - subst h1 r. by apply list_lookup_middle.
  - by eapply repr_items_carries.
  - exists (S n), h2. split.
    + intros [|fuel] Hfuel; [lia|]. simpl.
      unfold dict_at. rewrite Hlm. simpl. fold r h1.
      rewrite Hrun by lia. done.
    + econstructor; [|exact Hr2|].
      * intros Hl%HX. subst r. lia.
      * eapply repr_items_carries; [apply carries_forget | exact Hdfin].
Qed.

Lemma refines_all to : refines to.
Proof.
  induction to as [a|ts _|titems IH] using value_ind';
    intros X h m o tm HX Hdict Ho Hm; [done..|].
  destruct (deepmerge_refines_under X h m [o] tm [titems])
    as (n & h' & Hrun & Hres); [by constructor|done|done|by constructor|].
  by exists n, h'.
Qed.

(* For arguments that are trees in the store, enough fuel makes
   [Heap.deepmerge] return, the reference it returns is new, and what it
   refers to is the tree [Merge.deepmerge] computes. *)
Lemma deepmerge_refines h m os tm tos :
  repr nowhere h (HRef m) (VDict tm) →
  Forall2 (fun o to => repr nowhere h (HRef o) (VDict to)) os tos →
  ∃ n h',
    (∀ fuel, n ≤ fuel →
       Heap.deepmerge fuel h m os = Some (h', length h)) ∧
    repr nowhere h' (HRef (length h)) (VDict (Merge.deepmerge tm tos)).
Proof.
  intros Hm Hos. apply deepmerge_refines_under; [|done|done|done].
  apply Forall_forall. intros to _. apply Forall_forall.
  intros kv _. apply refines_all.
Qed.

End Refinement.

Section StoreClaims.
Import Heap.

Lemma deepmerge_old_objects fuel h m os h' r :
  Heap.deepmerge fuel h m os = Some (h', r) →
  ∀ l o, h !! l = Some o → h' !! l = Some o.
Proof.
  intros [[_ A] _]%deepmerge_keeps l o Hl.
  rewrite A; [done|]. by eapply lookup_lt_Some.
Qed.

(** C6. [deepmerge] works on a copy of the base mapping: whenever a call
    returns, the object the base refers to is what it was and the result
    is another object; with no override the call returns at once, and the
    new object holds exactly the entries of the base. *)
Theorem deepmerge_base_untouched (h : heap) (m : nat) (d : hdict) :
  h !! m = Some (ODict d) →
  (∀ fuel os h' r,
     Heap.deepmerge fuel h m os = Some (h', r) →
     h' !! m = Some (ODict d) ∧ r ≠ m) ∧
  (∀ fuel, ∃ h' r,
     Heap.deepmerge (S fuel) h m [] = Some (h', r) ∧
     h' !! r = Some (ODict d) ∧ r ≠ m ∧ h' !! m = Some (ODict d)).
Proof.
  intros Hm. pose proof (lookup_lt_Some _ _ _ Hm) as Hlt. split.
  - intros fuel os h' r Hrun. split.
    + by eapply deepmerge_old_objects.
    + apply deepmerge_keeps in Hrun as [_ ->]. lia.
  - intros fuel. exists (h ++ [ODict d]), (length h). simpl.
    unfold dict_at. rewrite Hm. simpl. split; [done|].
    split; [by apply list_lookup_middle|]. split; [lia|].
    by apply lookup_app_l_Some.
Qed.

Lemma deepmerge_base_untouched_witness :
  let h := [ODict [("a", HAtom (AInt 1)); ("b", HRef 1)]; ODict []] in
  ∃ h' r,
    Heap.deepmerge 1 h 0 [] = Some (h', r) ∧
    h' !! r = h !! 0 ∧ r ≠ 0 ∧ h' !! 0 = h !! 0.
Proof.
  intros h.
  exact (proj2 (deepmerge_base_untouched h 0 _ eq_refl) 0).
Defined.

(** C9. [deepmerge] writes to no object that existed before the call,
    at any depth: every old object is what it was, so every argument
    (overrides included) is still the same tree; a key under which the
    base and the override both hold a dict ends up, in the result,
    referring to an object allocated during the call.  For arguments
    that are trees the call does return, given enough fuel. *)
Theorem deepmerge_arguments_untouched (h : heap) (m : nat) (os : list nat) :
  (∀ fuel h' r,
     Heap.deepmerge fuel h m os = Some (h', r) →
     (∀ l o, h !! l = Some o → h' !! l = Some o) ∧
     (∀ v t, repr nowhere h v t → repr nowhere h' v t) ∧
     (∀ o dm items k bl vl,
        os = [o] →
        h !! m = Some (ODict dm) → h !! o = Some (ODict items) →
        NoDup (keys items) →
        get k dm = Some (HRef bl) → get k items = Some (HRef vl) →
        Heap.is_dict h (HRef bl) = true →
        Heap.is_dict h (HRef vl) = true →
        ∃ dfin l, h' !! r = Some (ODict dfin) ∧
                  get k dfin = Some (HRef l) ∧ length h ≤ l)) ∧
  (∀ tm tos,
     repr nowhere h (HRef m) (VDict tm) →
     Forall2 (fun o to => repr nowhere h (HRef o) (VDict to)) os tos →
     ∃ n h', ∀ fuel, n ≤ fuel →
       Heap.deepmerge fuel h m os = Some (h', length h)).
Proof.
  split.
  - intros fuel h' r Hrun.
    pose proof (deepmerge_old_objects _ _ _ _ _ _ Hrun) as Hold.
    split; [done|]. split.
    + intros v t. apply repr_carries. intros l o _ Hl.
      split; [by apply Hold | by intros []].
    + intros o dm items k bl vl -> Hm Ho Hnd Hgm Hgo Hb Hv.
      destruct fuel as [|fuel]; [done|]. simpl in Hrun.
      unfold dict_at in Hrun. rewrite Hm in Hrun. simpl in Hrun.
      rewrite (lookup_app_l_Some _ _ _ _ Ho) in Hrun. simpl in Hrun.
      destruct (for_items (Heap.deepmerge fuel) (length h) items
                  (h ++ [ODict dm])) as [h2|] eqn:E; simpl in Hrun; [|done].
      injection Hrun as <- <-.
      assert (∀ x, Heap.is_dict h x = true →
                   Heap.is_dict (h ++ [ODict dm]) x = true) as Hd.
      { intros [a|l]; [done|]. unfold Heap.is_dict.
        destruct (h !! l) as [ob|] eqn:El; [|done].
        by rewrite (lookup_app_l_Some _ _ _ _ El). }
      destruct (for_items_fresh (Heap.deepmerge fuel) (deepmerge_keeps fuel)
                  (length h) items k bl vl (h ++ [ODict dm]) h2 dm)
        as (dfin & l & Hdf & Hg & Hl); try done.
      * rewrite length_app. simpl. lia.
      * apply dict_at_Some. by apply list_lookup_middle.
      * by apply Hd.
      * by apply Hd.
      * exists dfin, l. split; [by apply dict_at_Some|]. split; [done|].
        rewrite length_app in Hl. lia.
  - intros tm tos Hm Hos.
    destruct (deepmerge_refines h m os tm tos Hm Hos) as (n & h' & Hrun & _).
    by exists n, h'.
Qed.

Lemma deepmerge_arguments_untouched_witness :
  let h := [ODict [("more", HRef 1)];
            ODict [("cond", HAtom (AStr "true"))];
            ODict [("more", HRef 3)];
            ODict [("additional", HAtom (AInt 333))]] in
  ∃ h' r,
    Heap.deepmerge 2 h 0 [2] = Some (h', r) ∧
    (∀ l o, h !! l = Some o → h' !! l = Some o) ∧
    (∃ dfin l, h' !! r = Some (ODict dfin) ∧
               get "more" dfin = Some (HRef l) ∧ 4 ≤ l).
Proof.
  intros h.
  destruct (Heap.deepmerge 2 h 0 [2]) as [[h' r]|] eqn:E; [|by vm_compute in E].
  exists h', r. split; [done|].
  destruct (proj1 (deepmerge_arguments_untouched h 0 [2]) 2 h' r E)
    as (Hold & _ & Hfresh).
  split; [exact Hold|].
  apply (Hfresh 2 _ _ "more" 1 3 eq_refl eq_refl eq_refl); try reflexivity.
  apply (bool_decide_unpack _). vm_compute. reflexivity.
Defined.
End StoreClaims.

(** ** Time stamps *)

Section TimeFacts.
Import Time.

(** The instant of the test suite, 2001-03-03 03:03:03.333333 UTC, on a
    machine two hours east of Greenwich. *)
Example formatTime_utc_example :
  formatTime (fun _ => 7200%Z) (fun _ => false) (fixed_mktime 7200)
    no_directive true 983588583333333 DEFAULT_TIME_FMT
  = "2001-03-03 03:03:03.333333+0000".
Proof. vm_compute. reflexivity. Qed.

Example formatTime_local_example :
  formatTime (fun _ => (-10800)%Z) (fun _ => false) (fixed_mktime (-10800))
    no_directive false 983588583333333 DEFAULT_TIME_FMT
  = "2001-03-03 00:03:03.333333-0300".
Proof. vm_compute. reflexivity. Qed.

Lemma append_empty_r (s : string) : (s +:+ "")%string = s.
Proof.
  induction s as [|a s IH]; [done|].
  change (String a (s +:+ "") = String a s). by f_equal.
Qed.

Lemma directive_z pd dt : directive pd "z" dt = format_offset (utcoffset dt).
Proof. unfold directive. by destruct (civil_from_days _) as [[y m] d]. Qed.

Section Machine.
Variable utcoffset_at : Z → Z.
Variable fold_at : Z → bool.
Variable mktime : datetime → Z.
Variable platform_directive : ascii → datetime → string.

(* Reading the local clock at an instant and converting the reading
   back lands in the same offset regime of the local zone. *)
Hypothesis mktime_local : ∀ t,
  utcoffset_at (mktime (fromtimestamp utcoffset_at fold_at t))
  = utcoffset_at t.

Let formatTime' :=
  formatTime utcoffset_at fold_at mktime platform_directive.

Lemma astimezone_fromtimestamp (tz : option Z) (t : Z) :
  astimezone utcoffset_at mktime (fromtimestamp utcoffset_at fold_at t) tz
  = let target := default (utcoffset_at t) tz in
    {| wall := t + usec * target;
       utcoffset := Some target;
       fold := false |}.
Proof.
  unfold astimezone. cbn [utcoffset fromtimestamp wall].
  rewrite mktime_local.
  destruct tz as [o|]; simpl; f_equal; lia.
Qed.

(** C7. [formatTime] turns the epoch time stamp of the record into a
    date-time before the pattern is applied.  With [utc] set the value
    is the UTC reading with UTC attached, whatever the zone of the
    machine, and "%z" renders "+0000"; with [utc] unset the value is
    the local reading with the local offset attached, and "%z"
    renders that offset. *)
Theorem formatTime_zone (created : Z) (datefmt : string) :
  formatTime' true created datefmt
  = strftime platform_directive datefmt
      {| wall := created; utcoffset := Some 0%Z; fold := false |}
  ∧ formatTime' false created datefmt
  = strftime platform_directive datefmt
      {| wall := created + usec * utcoffset_at created;
         utcoffset := Some (utcoffset_at created);
         fold := false |}
  ∧ formatTime' true created "%z" = "+0000"
  ∧ formatTime' false created "%z"
    = format_offset (Some (utcoffset_at created)).
Proof.
  unfold formatTime', formatTime.
  rewrite !astimezone_fromtimestamp. simpl.
  replace (created + usec * 0)%Z with created by lia.
  rewrite !directive_z, !append_empty_r. done.
Qed.
End Machine.

Lemma formatTime_zone_witness :
  formatTime (fun _ => 7200%Z) (fun _ => false) (fixed_mktime 7200)
    no_directive true 983588583333333 "%H:%M%z" = "03:03+0000"
  ∧ formatTime (fun _ => 7200%Z) (fun _ => false) (fixed_mktime 7200)
      no_directive false 983588583333333 "%H:%M%z" = "05:03+0200".
Proof.
  destruct (formatTime_zone (fun _ => 7200%Z) (fun _ => false)
              (fixed_mktime 7200) no_directive (fun _ => eq_refl)
              983588583333333 "%H:%M%z") as (Hutc & Hloc & _ & _).
  split; [rewrite Hutc | rewrite Hloc]; vm_compute; reflexivity.
Defined.
End TimeFacts.

(** ** JSON records *)

Section JsonFacts.
Import Json.

(** The example of the specification: levelname and message, the default
    rename map and one static field. *)
Example format_example :
  format no_clock
    (init true "%(levelname)s %(message)s" Time.DEFAULT_TIME_FMT
       (Some [("program", VStr "svc")]) JSON_RENAME_FIELDS)
    {| created := 0; msg := "disk low";
       attrs := [("name", VStr "app"); ("levelname", VStr "WARNING")] |}
  = [("program", VStr "svc"); ("level", VStr "WARNING");
     ("message", VStr "disk low")].
Proof. reflexivity. Qed.

(** The default template, no static fields: the time stamp is rendered by
    [formatTime] and goes under "timestamp". *)
Example format_default_example :
  format (Time.formatTime (fun _ => 7200%Z) (fun _ => false)
            (Time.fixed_mktime 7200) Time.no_directive)
    (init true Config.DEFAULT_FMT Time.DEFAULT_TIME_FMT None
       JSON_RENAME_FIELDS)
    {| created := 983588583333333; msg := "log message";
       attrs := [("levelname", VStr "INFO");
                 ("filename", VStr "basic_test.py");
                 ("lineno", VInt 81)] |}
  = [("timestamp", VStr "2001-03-03 03:03:03.333333+0000");
     ("level", VStr "INFO");
     ("filename", VStr "basic_test.py");
     ("lineno", VInt 81);
     ("message", VStr "log message")].
Proof. vm_compute. reflexivity. Qed.

Section DictMore.
Context {V : Type}.
Implicit Types (d : list (string * V)) (k : string) (v : V).

Lemma get_set d k k' v :
  get k' (set k v d) = if decide (k = k') then Some v else get k' d.
Proof.
  case_decide as E; [subst; apply get_set_eq | by apply get_set_ne].
Qed.

Lemma elem_of_keys d k : k ∈ keys d ↔ is_Some (get k d).
Proof.
  destruct (get k d) as [v|] eqn:E.
  - split; [by eauto | intros _; by eapply get_Some_in].
  - apply get_None_notin in E. split; [done | by intros [? [=]]].
Qed.

Lemma keys_set d k k' v : k' ∈ keys (set k v d) ↔ k' = k ∨ k' ∈ keys d.
Proof.
  rewrite !elem_of_keys, get_set. case_decide; subst.
  - split; [by left | by eauto].
  - split; [by right | intros [?|?]; [congruence | done]].
Qed.

(* a run of assignments [lr[key f] = val f], for f in fs *)
Lemma get_assignments (key : string → string) (val : string → V) fs :
  ∀ d k,
    (k ∉ map key fs →
       get k (fold_left (fun lr f => set (key f) (val f) lr) fs d)
       = get k d) ∧
    (k ∈ map key fs →
       ∃ f, f ∈ fs ∧ key f = k ∧
            get k (fold_left (fun lr f => set (key f) (val f) lr) fs d)
            = Some (val f)).
Proof.
  induction fs as [|f fs IH]; intros d k; simpl.
  - split; [done | by intros ?%elem_of_nil].
  - destruct (IH (set (key f) (val f) d) k) as [IHn IHy].
    destruct (decide (k ∈ map key fs)) as [Hin|Hnin].
    + split; [intros Hn; exfalso; apply Hn; by right|].
      intros _. destruct (IHy Hin) as (f' & Hf' & Hk & Hg).
      exists f'. split; [by right | done].
    + rewrite (IHn Hnin). rewrite get_set. split.
      * intros Hn. case_decide; [|done]. exfalso. apply Hn. subst. left.
      * intros [->|?]%elem_of_cons; [|done].
        exists f. rewrite decide_True by done. split; [left | done].
Qed.

Lemma update_nil d : update d [] = d.
Proof. reflexivity. Qed.

Lemma get_update_nodup other : ∀ d k,
  NoDup (keys other) →
  get k (update d other)
  = match get k other with Some v => Some v | None => get k d end.
Proof.
  induction other as [|[k0 v0] other IH]; intros d k Hnd; [done|].
  simpl in Hnd. apply NoDup_cons in Hnd as [Hk0 Hnd].
  unfold update in *. simpl. rewrite IH by done.
  destruct (String.eqb k k0) eqn:E.
  - apply String.eqb_eq in E. subst k0.
    apply get_None_notin in Hk0. rewrite Hk0. apply get_set_eq.
  - apply String.eqb_neq in E. destruct (get k other); [done|].
    apply get_set_ne. congruence.
Qed.
End DictMore.

Lemma set_same {V} (d : list (string * V)) k v :
  get k d = Some v → set k v d = d.
Proof.
  induction d as [|[k' v'] d IH]; simpl; [done|].
  destruct (String.eqb k k') eqn:E.
  - by intros [= ->].
  - intros H. by rewrite IH.
Qed.

Lemma update_same {V} (other d : list (string * V)) :
  (∀ k v, (k, v) ∈ other → get k d = Some v) → update d other = d.
Proof.
  unfold update. induction other as [|[k v] other IH]; intros H; [done|].
  simpl. rewrite set_same by (apply H; left). apply IH.
  intros k' v' Hin. apply H. by right.
Qed.

Section Formatter.
Variable formatTime : bool → Z → string → string.
Variable self : CustomJsonFormatter.
Variable record : LogRecord.

Let renamed : list string :=
  map (rename_key (rename_fields self)) (required_fields self).
Let out : dict := format formatTime self record.
Let rdict : dict := prepare formatTime self record.

(* what [format] holds under a key: the static value, or else the value
   of a field of the template with that key *)
Lemma format_get (k : string) :
  NoDup (keys (static_fields self)) →
  (∀ v, get k (static_fields self) = Some v → get k out = Some v) ∧
  (get k (static_fields self) = None → k ∉ renamed → get k out = None) ∧
  (get k (static_fields self) = None → k ∈ renamed →
     ∃ f, f ∈ required_fields self ∧
          rename_key (rename_fields self) f = k ∧
          get k out = Some (field_value rdict f)).
Proof.
  intros Hnd. unfold out, format, add_fields, JsonFormatter_add_fields.
  rewrite update_nil, (get_update_nodup _ _ k Hnd).
  destruct (get_assignments (rename_key (rename_fields self))
              (field_value rdict) (required_fields self)
              (update [] (static_fields self)) k) as [Hn Hy].
  split; [by intros v ->|]. split.
  - intros Hs Hk. rewrite Hs. unfold rdict in Hn. rewrite (Hn Hk).
    by rewrite (get_update_nodup _ [] k Hnd), Hs.
  - intros Hs Hk. rewrite Hs. exact (Hy Hk).
Qed.

Lemma format_keys (k : string) :
  NoDup (keys (static_fields self)) →
  k ∈ keys out ↔ k ∈ renamed ∨ k ∈ keys (static_fields self).
Proof.
  intros Hnd. destruct (format_get k Hnd) as (Hs & Hn & Hy).
  rewrite !elem_of_keys.
  destruct (get k (static_fields self)) as [v|] eqn:E.
  - rewrite (Hs v eq_refl). split; [by right | by eauto].
  - destruct (decide (k ∈ renamed)) as [Hin|Hnin].
    + destruct (Hy eq_refl Hin) as (f & _ & _ & ->).
      split; [by left | by eauto].
    + rewrite (Hn eq_refl Hnin). split; [by intros [? [=]]|].
      by intros [?|[? [=]]].
Qed.

(* what [prepare] leaves for a field the template references *)
Lemma field_value_prepare (f : string) :
  f ∈ required_fields self →
  field_value rdict f
  = record_field formatTime (utc self) (datefmt self) record f.
Proof.
  intros Hf. unfold field_value, rdict, prepare, record_field.
  destruct (String.eqb f "asctime") eqn:Ea.
  - apply String.eqb_eq in Ea as ->.
    rewrite bool_decide_eq_true_2 by done. by rewrite get_set_eq.
  - apply String.eqb_neq in Ea.
    assert (get f (set "message" (VStr (msg record)) (attrs record))
            = if String.eqb f "message" then Some (VStr (msg record))
              else get f (attrs record)) as Hm.
    { destruct (String.eqb f "message") eqn:Em.
      - apply String.eqb_eq in Em as ->. apply get_set_eq.
      - apply String.eqb_neq in Em. by apply get_set_ne. }
    case_bool_decide; rewrite ?get_set_ne by done; rewrite Hm;
      by destruct (String.eqb f "message").
Qed.
End Formatter.

Lemma static_or_empty_default (static_fields : option dict) :
  static_or_empty static_fields = default [] static_fields.
Proof. by destruct static_fields as [[|]|]. Qed.

Lemma has_char_app c s t : has_char c (s +:+ t) = has_char c s || has_char c t.
Proof.
  induction s as [|a s IH]; [done|]. simpl.
  change (has_char c (String a (s +:+ t))
          = Ascii.eqb a c || has_char c s || has_char c t).
  simpl. by rewrite IH, orb_assoc.
Qed.

(* the text between two placeholders holds no field *)
Lemma parse_literal text s :
  literal text = true →
  (s = "" ∨ ∃ s', s = String "%" s') →
  parse_from None (text +:+ s) = parse_from None s.
Proof.
  unfold literal. intros Hl Hs.
  induction text as [|c text IH]; [done|].
  simpl in Hl. apply negb_true_iff, orb_false_iff in Hl as [Hc Hl].
  change (parse_from None (String c (text +:+ s)) = parse_from None s).
  rewrite <- IH by by apply negb_true_iff.
  cbn [parse_from].
  destruct (text +:+ s) as [|c' rest] eqn:E; [by repeat case_match|].
  assert (c' ≠ "("%char) as Hc'.
  { intros ->. destruct text as [|c'' text].
    - simpl in E. destruct Hs as [->|[s' ->]]; discriminate E.
    - injection E as -> _. by simpl in Hl. }
  repeat case_match; congruence.
Qed.

(* inside a placeholder the characters are taken up to the ")" *)
Lemma parse_name name : ∀ acc s,
  has_char ")" name = false →
  (acc +:+ name)%string ≠ "" →
  parse_from (Some acc) (name +:+ ")" +:+ s)
  = (acc +:+ name)%string :: parse_from None s.
Proof.
  induction name as [|c name IH]; intros acc s Hn Hne.
  - rewrite append_empty_r in Hne.
    change ("" +:+ ")" +:+ s)%string with (String ")" s).
    cbn [parse_from]. rewrite Ascii.eqb_refl.
    apply String.eqb_neq in Hne. rewrite Hne. simpl.
    by rewrite append_empty_r.
  - simpl in Hn. apply orb_false_iff in Hn as [Hc Hn].
    change (String c name +:+ ")" +:+ s)%string
      with (String c (name +:+ ")" +:+ s)).
    cbn [parse_from]. rewrite Hc. simpl.
    assert ((acc +:+ String c name) = ((acc +:+ String c "") +:+ name))%string
      as Ha.
    { clear. induction acc as [|a acc IH]; [done|].
      change (String a (acc +:+ String c name)
              = String a ((acc +:+ String c "") +:+ name))%string.
      by rewrite IH. }
    rewrite Ha. apply IH; [done|]. by rewrite <- Ha.
Qed.

Lemma has_field_name name : ∀ some s,
  has_char ")" name = false → has_char "010" name = false →
  (some = true ∨ name ≠ "") →
  has_field some (name +:+ ")" +:+ s) = true.
Proof.
  induction name as [|c name IH]; intros some s Hp Hn Hs.
  - destruct Hs as [->|?]; [|done]. done.
  - simpl in Hp, Hn.
    apply orb_false_iff in Hp as [Hc Hp].
    apply orb_false_iff in Hn as [Hc' Hn].
    change (String c name +:+ ")" +:+ s)%string
      with (String c (name +:+ ")" +:+ s)).
    cbn [has_field]. rewrite Hc, Hc'. simpl. apply IH; [done..|by left].
Qed.

Lemma parse_render fields :
  forallb (fun p => field_name p.1 && literal p.2) fields = true →
  parse_from None (render fields) = map fst fields.
Proof.
  induction fields as [|[name text] fields IH]; [done|].
  simpl. intros [[Hf Ht]%andb_true_iff Hrest]%andb_true_iff.
  unfold field_name in Hf.
  apply andb_true_iff in Hf as [[Hne Hp]%andb_true_iff Hn].
  apply negb_true_iff in Hne, Hp, Hn. apply String.eqb_neq in Hne.
  change (parse_from None
            (String "%" (String "(" (name +:+ ")" +:+ text +:+ render fields)))
          = name :: map fst fields).
  cbn [parse_from].
  rewrite has_field_name by (done || by right).
  rewrite (parse_name name "" _ Hp Hne). f_equal.
  rewrite parse_literal; [by apply IH | done |].
  destruct fields as [|[n t] fields]; [by left | right; by eexists].
Qed.

(* the fields of a template are the names of its placeholders *)
Lemma parse_template lead fields :
  well_formed lead fields = true →
  parse (template lead fields) = map fst fields.
Proof.
  unfold well_formed, parse, template.
  intros [Hl Hf]%andb_true_iff.
  rewrite parse_literal; [by apply parse_render | done |].
  destruct fields as [|[n t] fields]; [by left | right; by eexists].
Qed.

(** C1. In JSON mode the static fields win: whatever the template and
    the record, each entry of [static_fields] is in the object with its
    own value, also under a key that is the (renamed) key of a field the
    template references, the fields of the record being written before
    the library writes [self.static_fields]. *)
Theorem static_fields_win (formatTime : bool → Z → string → string)
    (utc : bool) (fmt datefmt : string) (static : dict)
    (rename : list (string * string)) (record : LogRecord)
    (k : string) (v : value) :
  NoDup (keys static) →
  get k static = Some v →
  get k (format formatTime (init utc fmt datefmt (Some static) rename) record)
  = Some v.
Proof.
  intros Hnd Hk.
  assert (Json.static_fields (init utc fmt datefmt (Some static) rename)
          = static) as Hs.
  { apply (static_or_empty_default (Some static)). }
  apply format_get; by rewrite Hs.
Qed.

(** The default template is of that form. *)
Example default_template :
  Config.DEFAULT_FMT
  = template "" [("asctime", "s "); ("levelname", "s [");
                 ("filename", "s:"); ("lineno", "d] "); ("message", "s")]
  ∧ well_formed "" [("asctime", "s "); ("levelname", "s [");
                    ("filename", "s:"); ("lineno", "d] "); ("message", "s")]
    = true.
Proof. by split. Qed.

(** C4. A formatter made by [CustomJsonFormatter.__init__] from a
    template of the "%" style (text and placeholders "%(name)"), a
    rename map and static fields, or none: the keys of the object are
    the keys [rename_fields.get(f, f)] of the fields f of the
    placeholders together with the keys of [static_fields]; a static key
    holds the static value, and any other key holds what the record has
    for a field with that key: its message, its time stamp as
    [formatTime] renders it, or its attribute. *)
Theorem json_keys_and_values (formatTime : bool → Z → string → string)
    (utc : bool) (lead : string) (fields : list (string * string))
    (datefmt : string) (static_fields : option dict)
    (rename : list (string * string)) (record : LogRecord) :
  let self := init utc (template lead fields) datefmt static_fields rename in
  let out := format formatTime self record in
  let static := default [] static_fields in
  let renamed := map (fun p => default p.1 (get p.1 rename)) fields in
  well_formed lead fields = true →
  NoDup (keys static) →
  (∀ k, k ∈ keys out ↔ k ∈ renamed ∨ k ∈ keys static) ∧
  (∀ k v, get k static = Some v → get k out = Some v) ∧
  (∀ k, k ∈ renamed → k ∉ keys static →
        ∃ p, p ∈ fields ∧ default p.1 (get p.1 rename) = k ∧
             get k out
             = Some (record_field formatTime utc datefmt record p.1)).
Proof.
  intros self out static renamed Hwf Hnd.
  assert (Json.static_fields self = static) as Hs.
  { apply static_or_empty_default. }
  assert (required_fields self = map fst fields) as Hr.
  { by apply parse_template. }
  assert (map (rename_key (Json.rename_fields self)) (required_fields self)
          = renamed) as Hren.
  { rewrite Hr. unfold renamed. by rewrite <- list_fmap_compose. }
  rewrite <- Hs in Hnd. split; [|split].
  - intros k. unfold out. rewrite format_keys by done. by rewrite Hren, Hs.
  - intros k v Hk. apply format_get; [done|]. by rewrite Hs.
  - intros k Hk Hnk.
    destruct (format_get formatTime self record k Hnd) as (_ & _ & Hy).
    destruct Hy as (f & Hf & Hkf & Hg).
    { apply get_None_notin. by rewrite Hs. }
    { by rewrite Hren. }
    rewrite field_value_prepare in Hg by done.
    rewrite Hr in Hf. apply list_elem_of_fmap in Hf as (p & -> & Hp).
    exists p. split; [done|]. split; [done|]. exact Hg.
Qed.

(* a static field under the key the level is renamed to *)
Lemma static_fields_win_witness :
  get "level"
    (format no_clock
       (init true "%(levelname)s %(message)s" Time.DEFAULT_TIME_FMT
          (Some [("level", VStr "static"); ("program", VStr "svc")])
          JSON_RENAME_FIELDS)
       {| created := 0; msg := "disk low";
          attrs := [("levelname", VStr "WARNING")] |})
  = Some (VStr "static").
Proof.
  apply static_fields_win; [|reflexivity].
  apply (bool_decide_unpack _). vm_compute. reflexivity.
Defined.

(* the example of the specification *)
Lemma json_keys_and_values_witness :
  let fields := [("levelname", "s "); ("message", "s")] in
  let r := {| created := 0; msg := "disk low";
              attrs := [("levelname", VStr "WARNING")] |} in
  let out := format no_clock
               (init true (template "" fields) Time.DEFAULT_TIME_FMT
                  (Some [("program", VStr "svc")]) JSON_RENAME_FIELDS) r in
  ("level" ∈ keys out
   ↔ "level" ∈ ["level"; "message"] ∨ "level" ∈ ["program"]) ∧
  get "program" out = Some (VStr "svc") ∧
  ∃ p, p ∈ fields ∧ default p.1 (get p.1 JSON_RENAME_FIELDS) = "level" ∧
       get "level" out
       = Some (record_field no_clock true Time.DEFAULT_TIME_FMT r p.1).
Proof.
  intros fields r out.
  destruct (json_keys_and_values no_clock true "" fields
              Time.DEFAULT_TIME_FMT (Some [("program", VStr "svc")])
              JSON_RENAME_FIELDS r eq_refl
              ltac:(apply (bool_decide_unpack _); vm_compute; reflexivity))
    as (Hkeys & Hstatic & Hfields).
  split; [apply Hkeys|]. split; [by apply Hstatic|].
  apply Hfields; apply (bool_decide_unpack _); vm_compute; reflexivity.
Defined.
End JsonFacts.

(** ** configure_logging *)

Section ConfigFacts.
Import Logging Config.

Example run_defaults :
  run (defaults "app") initial
  = ({| objects := [{| h_class := VStr "logging.StreamHandler";
                       h_level := 20;
                       h_formatter := Some "json";
                       h_kwargs := [("stream", VStr "ext://sys.stdout")];
                       h_closed := false |}];
        registry := [("console", 0)];
        loggers := [("root", {| l_level := 30; l_handlers := [];
                                l_propagate := VBool true;
                                l_disabled := false |});
                    ("app", {| l_level := 20; l_handlers := [0];
                               l_propagate := VBool true;
                               l_disabled := false |})];
        placeholders := [] |},
     Return "app").
Proof. vm_compute. reflexivity. Qed.

(** The override of the test suite: the handler goes to ERROR, the logger
    stays at INFO. *)
Example run_extra_level :
  let st := (run (with_extra (defaults "app")
                    (VDict [("handlers",
                             VDict [("console",
                                     VDict [("level", VStr "ERROR")])])]))
               initial).1 in
  h_level <$> attached st "app" = [40%Z] ∧
  l_level <$> get "app" (loggers st) = Some 20%Z.
Proof. vm_compute. done. Qed.

Lemma bind_Return {A B} (m : M A) (k : A → M B) st st' b :
  bind m k st = (st', Return b) →
  ∃ st1 a, m st = (st1, Return a) ∧ k a st1 = (st', Return b).
Proof.
  unfold bind. destruct (m st) as [st1 [a|e]]; [by eauto | done].
Qed.

Lemma lift_Return {A} (r : outcome A) st st' a :
  lift r st = (st', Return a) → r = Return a ∧ st' = st.
Proof. unfold lift. by intros [= -> ->]. Qed.

Lemma ret_inv {A} (a : A) st st' b :
  ret a st = (st', Return b) → st' = st ∧ b = a.
Proof. by intros [= -> ->]. Qed.

Lemma each_check {A} (p : A → bool) (e : A → error) l st st' u :
  each (fun x => if p x then ret tt else raise (e x)) l st
    = (st', Return u) → st' = st.
Proof.
  revert st. induction l as [|x l IH]; intros st; simpl.
  - by intros [= ->].
  - intros (st1 & [] & Hx & Hl)%bind_Return.
    destruct (p x); [|done]. injection Hx as <-. by apply IH.
Qed.

Lemma update_logger_inv key f st st' u l :
  update_logger key f st = (st', Return u) →
  get key (loggers st) = Some l →
  objects st' = objects st ∧ get key (loggers st') = Some (f l).
Proof.
  unfold update_logger, modify. intros [= <-] Hl. rewrite Hl. simpl.
  split; [done|]. apply get_set_eq.
Qed.

Lemma getLogger_inv n st st' key :
  getLogger n st = (st', key) →
  key = logger_key n ∧ objects st' = objects st ∧
  is_Some (get key (loggers st')) ∧
  (is_Some (get key (loggers st)) → st' = st).
Proof.
  unfold getLogger.
  destruct (get (logger_key n) (loggers st)) eqn:E; intros [= <- <-].
  - rewrite E. by eauto.
  - simpl. rewrite get_set_eq. split; [done|]. split; [done|].
    split; [by eauto|]. rewrite E. by intros [? [=]].
Qed.

Lemma update_logger_frame key f st st' u k :
  update_logger key f st = (st', Return u) → k ≠ key →
  get k (loggers st') = get k (loggers st).
Proof.
  unfold update_logger, modify. intros [= <-] Hne. simpl.
  destruct (get key (loggers st)); [|done]. by apply get_set_ne.
Qed.

Lemma update_logger_registry key f st st' u :
  update_logger key f st = (st', Return u) → registry st' = registry st.
Proof. unfold update_logger, modify. by intros [= <-]. Qed.

Lemma getLogger_frame n st st' key k :
  getLogger n st = (st', key) → k ≠ key →
  get k (loggers st') = get k (loggers st) ∧ registry st' = registry st.
Proof.
  unfold getLogger.
  destruct (get (logger_key n) (loggers st)); intros [= <- <-] Hne; [done|].
  simpl. split; [by apply get_set_ne | done].
Qed.

Lemma getLogger_registry n st st' key :
  getLogger n st = (st', key) → registry st' = registry st.
Proof.
  unfold getLogger.
  by destruct (get (logger_key n) (loggers st)); intros [= <- <-].
Qed.

Lemma get_map_values {A B} (g : string → A → B) (ls : list (string * A)) k :
  get k (map (fun kl => (kl.1, g kl.1 kl.2)) ls) = g k <$> get k ls.
Proof.
  induction ls as [|[k0 l0] ls IH]; [done|]. simpl.
  destruct (String.eqb k k0) eqn:E; [|done].
  apply String.eqb_eq in E. by subst k0.
Qed.

Lemma handle_existing_one existing n disable st st' u k :
  handle_existing_loggers existing [n] disable st = (st', Return u) →
  objects st' = objects st ∧ registry st' = registry st ∧
  get k (loggers st') = aside n existing disable k <$> get k (loggers st).
Proof.
  intros [= <-]. simpl. split; [done|]. split; [done|].
  rewrite <- get_map_values. f_equal. apply map_ext. intros [k0 l0].
  unfold aside. simpl. rewrite orb_false_r.
  assert (bool_decide (k0 ≠ "root" ∧ k0 ∈ existing ∧ k0 ∉ [n])
          = bool_decide (k0 ≠ "root" ∧ k0 ∈ existing ∧ k0 ≠ n)) as ->.
  { apply bool_decide_ext. by rewrite list_elem_of_singleton. }
  by repeat case_match.
Qed.

Lemma level_of_inv d ll lvl :
  get "level" d = Some ll →
  level_of d = Return lvl →
  (ll = VNone ∧ lvl = None) ∨ (∃ z, checkLevel ll = Some z ∧ lvl = Some z).
Proof.
  unfold level_of. intros ->.
  assert (ll = VNone ∨ not_none (Some ll) = Some ll) as [->| ->].
  { destruct ll as [[]| |]; by eauto. }
  { simpl. intros [= <-]. by left. }
  destruct (checkLevel ll) as [z|]; [|done].
  intros [= <-]. right. by exists z.
Qed.

Lemma alter_last {A} (f : A → A) (l : list A) (x : A) :
  alter f (length l) (l ++ [x]) = l ++ [f x].
Proof.
  induction l as [|y l IH]; [done|].
  change (y :: alter f (length l) (l ++ [x]) = y :: l ++ [f x]).
  by rewrite IH.
Qed.

Section Oracles.
Variable fo flo : value → bool.
Variable ho : dict → bool.
Variable afo : value → dict → bool.

Lemma configure_logger_full filters id n ll st st' u :
  configure_logger afo filters [("console", id)] false
    (n, VDict [("level", ll); ("handlers", VList [VStr "console"])]) st
    = (st', Return u) →
  objects st' = objects st ∧ registry st' = registry st ∧
  (∃ l, get (logger_key n) (loggers st') = Some l ∧
        l_handlers l = [id] ∧ l_disabled l = false ∧
        ∀ z, checkLevel ll = Some z → l_level l = z) ∧
  (ll = VNone ∨ is_Some (checkLevel ll)) ∧
  ∀ k, k ≠ logger_key n → get k (loggers st') = get k (loggers st).
Proof.
  unfold configure_logger. cbn [fst snd].
  destruct (getLogger n st) as [st1 key] eqn:G.
  pose proof (getLogger_inv _ _ _ _ G) as (-> & Ho & [l0 Hl0] & _).
  match goal with |- (let (_, _) := ?m st1 in _) = _ → _ =>
    destruct (m st1) as [st2 [[]|e]] eqn:E; [|done] end.
  intros [= <-].
  apply bind_Return in E as (sta & [] & E1 & E2).
  unfold common_logger_config in E1.
  apply bind_Return in E1 as (stb & lvl & L1 & E1).
  apply lift_Return in L1 as [L1 ->].
  apply (level_of_inv _ ll) in L1; [|done].
  apply bind_Return in E1 as (stc & [] & E3 & E1).
  apply bind_Return in E1 as (std & [] & E4 & E1).
  apply bind_Return in E1 as (ste & [] & E5 & E6).
  change (each (add_handler [("console", id)] (logger_key n))
            [VStr "console"] std = (ste, Return ())) in E5.
  apply bind_Return in E5 as (stf & [] & E5 & E5').
  apply ret_inv in E5' as [<- _].
  change (add_handler [("console", id)] (logger_key n) (VStr "console"))
    with (update_logger (logger_key n) (fun l =>
              {| l_level := l_level l;
                 l_handlers := if bool_decide (id ∈ l_handlers l)
                               then l_handlers l
                               else l_handlers l ++ [id];
                 l_propagate := l_propagate l;
                 l_disabled := l_disabled l |})) in E5.
  assert (sta = ste) as ->.
  { destruct (filters_of _ _ _); [|done]. by apply ret_inv in E6 as [-> _]. }
  assert (∃ l1, objects stc = objects st1 ∧ registry stc = registry st1 ∧
                get (logger_key n) (loggers stc) = Some l1 ∧
                (∀ z, checkLevel ll = Some z → l_level l1 = z) ∧
                ∀ k, k ≠ logger_key n →
                     get k (loggers stc) = get k (loggers st1))
    as (l1 & Ho1 & Hr1 & Hl1 & Hlv1 & Hf1).
  { destruct L1 as [[-> ->]|(z & Hz & ->)].
    - apply ret_inv in E3 as [-> _]. exists l0. by repeat split.
    - destruct (update_logger_inv _ _ _ _ _ _ E3 Hl0) as [? ?].
      eexists. split; [done|]. split; [by eapply update_logger_registry|].
      split; [done|]. split.
      + simpl. intros z'. rewrite Hz. by intros [= ->].
      + intros k Hk. by eapply update_logger_frame. }
  destruct (update_logger_inv _ _ _ _ _ _ E4 Hl1) as [Ho2 Hl2].
  destruct (update_logger_inv _ _ _ _ _ _ E5 Hl2) as [Ho3 Hl3].
  destruct (update_logger_inv _ _ _ _ _ _ E2 Hl3) as [Ho4 Hl4].
  split; [congruence|]. split.
  { rewrite (update_logger_registry _ _ _ _ _ E2),
      (update_logger_registry _ _ _ _ _ E5),
      (update_logger_registry _ _ _ _ _ E4), Hr1.
    by eapply getLogger_registry. }
  split.
  { eexists. split; [exact Hl4|]. simpl. split; [done|]. split; [done|].
    exact Hlv1. }
  split.
  { destruct L1 as [[-> _]|(z & Hz & _)]; [by left | right; by eauto]. }
  intros k Hk.
  rewrite (update_logger_frame _ _ _ _ _ k E2 Hk),
    (update_logger_frame _ _ _ _ _ k E5 Hk),
    (update_logger_frame _ _ _ _ _ k E4 Hk), (Hf1 k Hk).
  by apply (getLogger_frame n st st1 _ k G).
Qed.

(* the handler [configure_handler] makes of the console entry *)
Lemma configure_handler_inv formatters filters hl fm st st' id :
  fm ≠ "" →
  configure_handler ho afo formatters filters "console"
    (console_entry hl fm) st = (st', Return id) →
  id = length (objects st) ∧
  objects st' = objects st ++ [console_handler hl fm] ∧
  registry st' = registry st ∧ loggers st' = loggers st ∧
  placeholders st' = placeholders st ∧
  contains fm formatters = true ∧
  (hl = VNone ∨ is_Some (checkLevel hl)).
Proof.
  intros Hfm. unfold configure_handler, console_entry.
  cbn [get String.eqb Ascii.eqb Bool.eqb when_truthy truthy].
  assert (String.eqb fm "" = false) as ->. { by apply String.eqb_neq. }
  cbn [negb]. destruct (contains fm formatters); [|done].
  destruct (ho _); [|done].
  intros (st1 & id' & [= <- <-] & E)%bind_Return.
  apply bind_Return in E as (st2 & lvl & L & E).
  apply lift_Return in L as [L ->].
  destruct (level_of _) as [lvl'|] eqn:L'; [|done]. injection L as ->.
  apply (level_of_inv _ hl) in L'; [|done].
  apply bind_Return in E as (st3 & [] & E1 & E2).
  destruct (filters_of _ _ _); [|done]. apply ret_inv in E2 as [-> <-].
  split; [done|]. unfold console_handler.
  destruct L' as [[-> ->]|(z & Hz & ->)].
  - apply ret_inv in E1 as [-> _]. simpl. by eauto 10.
  - injection E1 as <-. simpl. rewrite alter_last, Hz. simpl.
    by eauto 10.
Qed.

Lemma dictConfig_console cfg fs hl fm n ll st st' u :
  get "version" cfg = Some (VInt 1) →
  get "incremental" cfg = None →
  get "formatters" cfg = Some (VDict fs) →
  get "filters" cfg = None →
  get "handlers" cfg = Some (VDict [("console", console_entry hl fm)]) →
  get "loggers" cfg = Some (VDict [(n, logger_entry ll)]) →
  get "root" cfg = None →
  fm ≠ "" →
  dictConfig fo flo ho afo cfg st = (st', Return u) →
  let id := length (objects st) in
  let existing :=
    filter (fun k => k ≠ "root") (keys (loggers st)) ++ placeholders st in
  let disable :=
    truthy (default (VBool true) (get "disable_existing_loggers" cfg)) in
  objects st' = map closed (objects st) ++ [console_handler hl fm] ∧
  registry st' = [("console", id)] ∧
  contains fm fs = true ∧
  (hl = VNone ∨ is_Some (checkLevel hl)) ∧
  (ll = VNone ∨ is_Some (checkLevel ll)) ∧
  (∃ l, get (logger_key n) (loggers st') = Some l ∧
        l_handlers l = [id] ∧ l_disabled l = false ∧
        ∀ z, checkLevel ll = Some z → l_level l = z) ∧
  ∀ k, k ≠ logger_key n →
       get k (loggers st')
       = aside n existing disable k <$> get k (loggers st).
Proof.
  intros Hv Hi Hf Hfl Hh Hl Hr Hfm. unfold dictConfig.
  rewrite Hv, Hi. cbn [negb default truthy]. intros E.
  apply bind_Return in E as (st1 & [] & E1 & E).
  injection E1 as <-.
  apply bind_Return in E as (st2 & formatters & E2 & E).
  apply lift_Return in E2 as [E2 ->].
  apply bind_Return in E as (st3 & [] & E3 & E).
  apply each_check in E3 as ->.
  apply bind_Return in E as (st4 & filters & E4 & E).
  apply lift_Return in E4 as [E4 ->].
  apply bind_Return in E as (st5 & [] & E5 & E).
  apply each_check in E5 as ->.
  apply bind_Return in E as (st6 & handlers & E6 & E).
  apply lift_Return in E6 as [E6 ->].
  apply bind_Return in E as (st7 & hmap & E7 & E).
  apply bind_Return in E as (st8 & lgs & E8 & E).
  apply lift_Return in E8 as [E8 ->].
  apply bind_Return in E as (st9 & existing & E9 & E).
  injection E9 as <- <-.
  apply bind_Return in E as (st10 & [] & E10 & E).
  apply bind_Return in E as (st11 & [] & E11 & E).
  unfold section in E2, E4, E6, E8. rewrite Hf in E2. rewrite Hfl in E4.
  rewrite Hh in E6. rewrite Hl in E8.
  injection E2 as <-. injection E6 as <-. injection E8 as <-.
  injection E4 as <-.
  change (sorted (keys _)) with ["console"] in E7.
  apply bind_Return in E7 as (st7' & hmap' & E7 & E7').
  apply ret_inv in E7' as [<- <-].
  apply bind_Return in E7 as (st6 & id & Hh' & E7).
  apply configure_handler_inv in Hh'
    as (-> & Ho6 & Hr6 & Hl6 & Hp6 & Hc & Hhl); [|done].
  injection E7 as <- <-.
  cbn [objects registry loggers placeholders] in *.
  fold closed in *. rewrite Hl6, Hp6 in E11.
  apply bind_Return in E10 as (st10' & [] & E10 & E10').
  apply ret_inv in E10' as [<- _].
  apply configure_logger_full in E10 as (Ho10 & Hr10 & Hl10 & Hll & Hf10).
  unfold configure_root in E. rewrite Hr in E. apply ret_inv in E as [-> _].
  cbn [keys map fst] in E11.
  rewrite length_map in *.
  split.
  { rewrite (proj1 (handle_existing_one _ _ _ _ _ _ "" E11)), Ho10. done. }
  split.
  { rewrite (proj1 (proj2 (handle_existing_one _ _ _ _ _ _ "" E11))), Hr10.
    by rewrite Hr6. }
  split; [done|]. split; [done|]. split; [done|]. split.
  - destruct Hl10 as (l & Hl10 & Hhs & Hd & Hlv).
    exists l. split; [|done].
    rewrite (proj2 (proj2 (handle_existing_one _ _ _ _ _ _
                             (logger_key n) E11))), Hl10.
    simpl. f_equal. unfold aside.
    rewrite bool_decide_eq_false_2; [done|].
    intros (Hroot & _ & Hne).
    unfold logger_key in *. by destruct (String.eqb n "").
  - intros k Hk.
    rewrite (proj2 (proj2 (handle_existing_one _ _ _ _ _ _ k E11))).
    by rewrite (Hf10 k Hk), Hl6.
Qed.

Lemma configure_logging_shape a cfg fs hl fm ll st st' lg :
  merged_document a = Some cfg →
  get "version" cfg = Some (VInt 1) →
  get "incremental" cfg = None →
  get "formatters" cfg = Some (VDict fs) →
  get "filters" cfg = None →
  get "handlers" cfg = Some (VDict [("console", console_entry hl fm)]) →
  get "loggers" cfg = Some (VDict [(name a, logger_entry ll)]) →
  get "root" cfg = None →
  fm ≠ "" →
  configure_logging (dictConfig fo flo ho afo) getLogger a st
    = (st', Return lg) →
  let id := length (objects st) in
  let existing :=
    filter (fun k => k ≠ "root") (keys (loggers st)) ++ placeholders st in
  let disable :=
    truthy (default (VBool true) (get "disable_existing_loggers" cfg)) in
  lg = logger_key (name a) ∧
  objects st' = map closed (objects st) ++ [console_handler hl fm] ∧
  registry st' = [("console", id)] ∧
  attached st' (name a) = [console_handler hl fm] ∧
  (∃ l, get lg (loggers st') = Some l ∧
        l_handlers l = [id] ∧ l_disabled l = false ∧
        ∀ z, checkLevel ll = Some z → l_level l = z) ∧
  ∀ k, k ≠ lg →
       get k (loggers st')
       = aside (name a) existing disable k <$> get k (loggers st).
Proof.
  intros Hm Hv Hi Hf Hfl Hh Hl Hr Hfm. unfold configure_logging.
  rewrite Hm.
  destruct (dictConfig fo flo ho afo cfg st) as [st1 [[]|e]] eqn:E; [|done].
  destruct (getLogger (name a) st1) as [st2 key] eqn:G.
  intros [= <- <-].
  eapply dictConfig_console in E
    as (Ho & Hreg & _ & _ & _ & (l & Hl' & Hhs & Hd & Hlv) & Hframe);
    try done.
  apply getLogger_inv in G as (-> & _ & _ & Hsame).
  rewrite Hsame by (rewrite Hl'; eauto).
  split; [done|]. split; [done|]. split; [done|]. split.
  - unfold attached. rewrite Hl', Hhs, Ho. simpl.
    rewrite <- (length_map closed (objects st)).
    by rewrite list_lookup_middle.
  - split; [by eauto 10|]. done.
Qed.

Lemma merged_document_plain a :
  truthy (extra a) = false → merged_document a = Some (document a).
Proof. unfold merged_document. by intros ->. Qed.

Lemma formatter_name_nonempty a : formatter_name a ≠ "".
Proof. unfold formatter_name. by destruct (json a). Qed.

Lemma configure_logging_console a st st' lg :
  truthy (extra a) = false →
  configure_logging (dictConfig fo flo ho afo) getLogger a st
    = (st', Return lg) →
  ∃ h, attached st' (name a) = [h] ∧ to_stdout h.
Proof.
  intros Hex%merged_document_plain E.
  eapply (configure_logging_shape a _ _ (level a) (formatter_name a)
            (level a)) in E as (_ & _ & _ & Hat & _);
    try exact Hex; try reflexivity; [|apply formatter_name_nonempty].
  eexists. split; [exact Hat|]. by split.
Qed.

(** C3, as amended.  When no override fragment is supplied ([extra]
    absent, empty or otherwise falsy), after every call that returns
    exactly one handler is attached to the named logger: the console
    handler, a [logging.StreamHandler] on the standard output stream.
    An override fragment is merged into the document and can add,
    remove or redirect handlers. *)
Theorem one_console_handler_without_extra a st st' lg :
  truthy (extra a) = false →
  configure_logging (dictConfig fo flo ho afo) getLogger a st
    = (st', Return lg) →
  ∃ h, attached st' (name a) = [h] ∧ to_stdout h.
Proof. apply configure_logging_console. Qed.
End Oracles.

Lemma one_console_handler_without_extra_witness :
  ∃ h, attached (run (defaults "app") initial).1 "app" = [h] ∧ to_stdout h.
Proof.
  apply (one_console_handler_without_extra always always always always2
           (defaults "app") initial _ "app" eq_refl).
  vm_compute. reflexivity.
Defined.

(** C3 as stated fails: with an override fragment that adds a handler,
    the call returns and two handlers are attached to the logger. *)
Lemma extra_can_add_handlers :
  ¬ (∀ a st st' lg,
       run a st = (st', Return lg) →
       ∃ h, attached st' (name a) = [h] ∧ to_stdout h).
Proof.
  intros H.
  destruct (H (with_extra (defaults "app") more_handlers) initial
              (run (with_extra (defaults "app") more_handlers) initial).1
              "app") as (h & Hatt & _).
  - vm_compute. reflexivity.
  - vm_compute in Hatt. discriminate Hatt.
Qed.

Lemma falsy_extra_skipped {state logger : Type}
    (dictConfig : dict → state → state * outcome unit)
    (getLogger : string → state → state * logger) a e st :
  truthy e = false →
  configure_logging dictConfig getLogger (with_extra a e) st
  = configure_logging dictConfig getLogger (with_extra a VNone) st.
Proof.
  intros He. unfold configure_logging, merged_document. simpl.
  by rewrite He.
Qed.

(** C10. An empty [extra] is treated as no [extra]: whatever the other
    arguments, the state and the substrate, the call with [extra={}]
    does what the call with [extra=None] does, the merge being skipped
    for a falsy [extra]. *)
Theorem empty_extra_same_as_none {state logger : Type}
    (dictConfig : dict → state → state * outcome unit)
    (getLogger : string → state → state * logger) a st :
  configure_logging dictConfig getLogger (with_extra a (VDict [])) st
  = configure_logging dictConfig getLogger (with_extra a VNone) st.
Proof. by apply falsy_extra_skipped. Qed.

Lemma late_ret {A} (a : A) : raises_late (ret a).
Proof. by intros st st' e [=]. Qed.

Lemma late_raise {A} e : late e → raises_late (@raise A e).
Proof. by intros He st st' e' [= _ <-]. Qed.

Lemma late_modify f : raises_late (modify f).
Proof. by intros st st' e [=]. Qed.

Lemma late_bind {A B} (m : M A) (k : A → M B) :
  raises_late m → (∀ a, raises_late (k a)) → raises_late (bind m k).
Proof.
  intros Hm Hk st st' e. unfold bind.
  destruct (m st) as [st1 [a|e1]] eqn:E.
  - apply Hk.
  - intros [= _ <-]. by eapply Hm.
Qed.

Lemma late_each {A} (f : A → M unit) l :
  (∀ x, raises_late (f x)) → raises_late (each f l).
Proof.
  intros Hf. induction l as [|x l IH]; simpl; [apply late_ret|].
  apply late_bind; [apply Hf | by intros _].
Qed.

Lemma late_section cfg key : raises_late (lift (section cfg key)).
Proof.
  intros st st' e. unfold lift, section.
  repeat case_match; intros [= _ <-]; by split.
Qed.

Lemma late_wrapped {A} (m : state → state * outcome A) e0 :
  late e0 →
  raises_late (fun st => match m st with
                         | (st2, Raise _) => (st2, Raise e0)
                         | r => r
                         end).
Proof.
  intros He st st' e. destruct (m st) as [st2 [a|e2]]; [done|].
  by intros [= _ <-].
Qed.

Section Failure.
Variable fo flo : value → bool.
Variable ho : dict → bool.
Variable afo : value → dict → bool.

Lemma late_configure_logger filters hmap inc entry :
  raises_late (configure_logger afo filters hmap inc entry).
Proof.
  intros st st' e. unfold configure_logger.
  destruct (getLogger entry.1 st) as [st1 key].
  match goal with |- match ?m with _ => _ end = _ → _ =>
    destruct m as [st2 [a|e2]] end; [done|].
  by intros [= _ <-].
Qed.

Lemma late_configure_root filters hmap inc cfg :
  raises_late (configure_root afo filters hmap inc cfg).
Proof.
  unfold configure_root. destruct (when_truthy _); [|apply late_ret].
  intros st st' e. destruct (getLogger "" st) as [st1 key].
  match goal with |- match ?m with _ => _ end = _ → _ =>
    destruct m as [st2 [a|e2]] end; [done|].
  by intros [= _ <-].
Qed.

Lemma late_install_handlers formatters filters handlers names :
  ∀ hmap, raises_late (install_handlers ho afo formatters filters
                         handlers names hmap).
Proof.
  induction names as [|n names IH]; intros hmap; simpl; [apply late_ret|].
  apply late_bind; [|done]. unfold install_handler.
  apply late_bind; [|by intros h st st' e [=]].
  unfold configure_handler.
  destruct (default VNone (get n handlers)) as [x|xs|d];
    try by apply late_raise.
  match goal with |- raises_late (match ?f with _ => _ end) =>
    destruct f as [fm|]; [|by apply late_raise] end.
  match goal with |- raises_late (match ?c with _ => _ end) =>
    destruct c as [c'|]; [|by apply late_raise] end.
  destruct (ho _); [|by apply late_raise].
  apply late_bind; [by intros st st' e [=]|]. intros id.
  apply late_bind.
  { intros st st' e. unfold lift. destruct (level_of _); [done|].
    by intros [= _ <-]. }
  intros level. apply late_bind.
  { destruct level; [apply late_modify | apply late_ret]. }
  intros _. destruct (filters_of _ _ _);
    [apply late_ret | by apply late_raise].
Qed.

Lemma late_adjust_handler handlers n :
  raises_late (adjust_handler handlers n).
Proof.
  intros st st' e. unfold adjust_handler.
  repeat case_match; intros [= _ <-]; by split.
Qed.

(* past the version check no error is an error of the version check *)
Lemma dictConfig_version_error cfg st st' e :
  dictConfig fo flo ho afo cfg st = (st', Raise e) →
  e = NoVersion ∨ e = UnsupportedVersion → st' = st.
Proof.
  unfold dictConfig. destruct (get "version" cfg) as [v|];
    [|by intros [= <-]].
  destruct (negb _); [by intros [= <-]|].
  intros Hrun Hv. exfalso.
  assert (late e) as [H1 H2]; [|destruct Hv; done].
  revert Hrun. generalize st st' e. fold (@raises_late unit).
  destruct (truthy _).
  - apply late_bind; [apply late_section|]. intros handlers.
    apply late_bind; [apply late_each, late_adjust_handler|]. intros _.
    apply late_bind; [apply late_section|]. intros lgs.
    apply late_bind; [apply late_each, late_configure_logger|]. intros _.
    apply late_configure_root.
  - apply late_bind; [apply late_modify|]. intros _.
    apply late_bind; [apply late_section|]. intros formatters.
    apply late_bind.
    { apply late_each. intros x. destruct (_ && fo _);
        [apply late_ret | by apply late_raise]. }
    intros _. apply late_bind; [apply late_section|]. intros filters.
    apply late_bind.
    { apply late_each. intros x. destruct (_ && flo _);
        [apply late_ret | by apply late_raise]. }
    intros _. apply late_bind; [apply late_section|]. intros handlers.
    apply late_bind; [apply late_install_handlers|]. intros hmap.
    apply late_bind; [apply late_section|]. intros lgs.
    apply late_bind; [by intros ? ? ? [=]|]. intros existing.
    apply late_bind; [apply late_each, late_configure_logger|]. intros _.
    apply late_bind; [apply late_modify|]. intros _.
    apply late_configure_root.
Qed.

(** C8, as amended.  A call fails in one of two ways.  Either [extra]
    is truthy and no mapping: [deepmerge] raises before the substrate
    is touched and the state is unchanged.  Or [dictConfig] raises on
    the merged document: the error is passed on and the state is the
    one [dictConfig] left, nothing is rolled back; it is the unchanged
    state when the document fails the version check, the first thing
    [dictConfig] does. *)
Theorem failed_call_state a st st' e :
  configure_logging (dictConfig fo flo ho afo) getLogger a st
    = (st', Raise e) →
  (merged_document a = None ∧ e = AttributeError ∧ st' = st) ∨
  (∃ cfg, merged_document a = Some cfg ∧
          dictConfig fo flo ho afo cfg st = (st', Raise e) ∧
          (e = NoVersion ∨ e = UnsupportedVersion → st' = st)).
Proof.
  unfold configure_logging. destruct (merged_document a) as [cfg|].
  - destruct (dictConfig fo flo ho afo cfg st) as [st1 [[]|e1]] eqn:E.
    + destruct (getLogger (name a) st1). done.
    + intros [= <- <-]. right. exists cfg. split; [done|].
      split; [done|]. by eapply dictConfig_version_error.
  - intros [= <- <-]. by left.
Qed.
End Failure.

Lemma failed_call_state_witness :
  (run (with_extra (defaults "app") (VStr "no mapping")) configured).1
  = configured
  ∧ (run (with_extra (defaults "app") (VDict [("version", VInt 2)]))
       configured).1 = configured.
Proof.
  split.
  - destruct (failed_call_state always always always always2
                (with_extra (defaults "app") (VStr "no mapping"))
                configured
                (run (with_extra (defaults "app") (VStr "no mapping"))
                   configured).1
                AttributeError eq_refl) as [(_ & _ & H)|(cfg & H & _)].
    + exact H.
    + discriminate H.
  - destruct (failed_call_state always always always always2
                (with_extra (defaults "app") (VDict [("version", VInt 2)]))
                configured
                (run (with_extra (defaults "app")
                        (VDict [("version", VInt 2)])) configured).1
                UnsupportedVersion eq_refl) as [(H & _)|(cfg & _ & _ & H)].
    + discriminate H.
    + apply H. by right.
Defined.

(** C8 as stated fails: the second call fails on the logger "other",
    after the handlers were replaced and the logger "app" was set to
    DEBUG; the state is not the one before the call. *)
Lemma failed_call_changes_state :
  ¬ (∀ a st st' e, run a st = (st', Raise e) → st' = st).
Proof.
  intros H.
  specialize (H bad_call configured (run bad_call configured).1
                (Unable "logger" "other") eq_refl).
  vm_compute in H. discriminate H.
Qed.
End ConfigFacts.

(** * Further properties of the code

    What the functions do beyond the claims above: the shape of a merged
    dict, what [deepmerge] shares with its arguments, the microseconds of
    a time stamp, the order of the JSON object, and the state a call of
    [configure_logging] leaves. *)

(** ** deepmerge, on values *)

Section MergeMore.

Lemma distinct_keys_dict d :
  distinct_keys (VDict d) = true ↔
  NoDup (keys d) ∧ Forall (fun kv => distinct_keys kv.2 = true) d.
Proof.
  simpl. rewrite andb_true_iff, bool_decide_eq_true.
  apply and_iff_compat_l.
  induction d as [|[k v] d IH]; simpl.
  - split; [constructor | done].
  - rewrite andb_true_iff, IH, Forall_cons. done.
Qed.

Lemma keys_set_cases {V} (d : list (string * V)) k v :
  keys (set k v d) = if contains k d then keys d else keys d ++ [k].
Proof.
  unfold contains. induction d as [|[k' v'] d IH]; simpl; [done|].
  destruct (String.eqb k k') eqn:E; simpl; [done|].
  rewrite IH. by destruct (get k d).
Qed.

Lemma keys_set_prefix {V} (d : list (string * V)) k v :
  keys d `prefix_of` keys (set k v d).
Proof.
  rewrite keys_set_cases. destruct (contains k d); [done|].
  by apply prefix_app_r.
Qed.

Lemma assign_set k v m : assign k v m = set k (merged (get k m) v) m.
Proof.
  unfold assign, merged. destruct (get k m) as [[a|xs|bm]|]; try done.
  by destruct v.
Qed.

Lemma merge_items_keys_prefix items : ∀ m,
  keys m `prefix_of` keys (merge_items items m).
Proof.
  induction items as [|[k v] rest IH]; intros m; [done|].
  rewrite merge_items_cons, assign_set.
  etrans; [apply keys_set_prefix | apply IH].
Qed.

Lemma merge_items_keys items : ∀ m k,
  k ∈ keys (merge_items items m) ↔ k ∈ keys m ∨ k ∈ keys items.
Proof.
  induction items as [|[k0 v] rest IH]; intros m k.
  - rewrite merge_items_nil. simpl. rewrite elem_of_nil. tauto.
  - rewrite merge_items_cons, IH, assign_set, keys_set. simpl.
    rewrite elem_of_cons. tauto.
Qed.

(** X1. [deepmerge] removes no key and moves none: the keys of the base
    come first in the result, in the order they have in the base, and the
    keys of the result are those of the base and of the overrides. *)
Theorem deepmerge_keeps_keys (base : dict) (others : list dict) :
  keys base `prefix_of` keys (deepmerge base others) ∧
  ∀ k, k ∈ keys (deepmerge base others)
       ↔ k ∈ keys base ∨ ∃ o, o ∈ others ∧ k ∈ keys o.
Proof.
  unfold deepmerge, copy. revert base.
  induction others as [|o others IH]; intros base; simpl.
  - split; [done|]. intros k. split; [by left|].
    intros [?|(o & Ho%elem_of_nil & _)]; done.
  - destruct (IH (merge_items o base)) as [IHp IHk]. split.
    + etrans; [apply merge_items_keys_prefix | exact IHp].
    + intros k. rewrite IHk, merge_items_keys. split.
      * intros [[?|?]|(o' & Ho' & ?)]; [by left
          | right; exists o; split; [left | done]
          | right; exists o'; split; [by right | done]].
      * intros [?|(o' & [->|Ho']%elem_of_cons & ?)];
          [by left; left | by left; right | right; by exists o'].
Qed.

Lemma get_Forall {V} (P : V → Prop) (d : list (string * V)) k v :
  Forall (fun kv => P kv.2) d → get k d = Some v → P v.
Proof.
  induction 1 as [|[k' v'] d Hv _ IH]; simpl; [done|].
  destruct (String.eqb k k'); [by intros [= <-] | done].
Qed.

Lemma set_Forall {V} (P : V → Prop) (d : list (string * V)) k v :
  Forall (fun kv => P kv.2) d → P v → Forall (fun kv => P kv.2) (set k v d).
Proof.
  intros Hd Hv. induction Hd as [|[k' v'] d Hv' Hd IH]; simpl.
  - by constructor.
  - destruct (String.eqb k k'); by constructor.
Qed.

Lemma set_NoDup {V} (d : list (string * V)) k v :
  NoDup (keys d) → NoDup (keys (set k v d)).
Proof.
  intros Hnd. rewrite keys_set_cases. unfold contains.
  destruct (get k d) eqn:E; [done|].
  apply NoDup_app. split; [done|]. split; [|apply NoDup_singleton].
  intros x Hx ->%list_elem_of_singleton. by apply get_None_notin in E.
Qed.

Lemma get_elem_of {V} (d : list (string * V)) k v :
  NoDup (keys d) → (k, v) ∈ d → get k d = Some v.
Proof.
  induction d as [|[k' v'] d IH]; simpl; [by intros _ ?%elem_of_nil|].
  intros [Hk Hnd]%NoDup_cons [[= <- <-]|Hin]%elem_of_cons.
  - by rewrite String.eqb_refl.
  - destruct (String.eqb k k') eqn:E; [|by apply IH].
    apply String.eqb_eq in E. subst k'. exfalso. apply Hk.
    apply list_elem_of_fmap. by exists (k, v).
Qed.

Lemma assign_distinct k v m :
  keeps_distinct v → distinct_keys v = true →
  distinct_keys (VDict m) = true →
  distinct_keys (VDict (assign k v m)) = true.
Proof.
  intros IHv Hv Hm. rewrite assign_set.
  apply distinct_keys_dict in Hm as [Hnd Hall]. apply distinct_keys_dict.
  split; [by apply set_NoDup|].
  apply (set_Forall (fun v => distinct_keys v = true)); [done|].
  unfold merged. destruct (get k m) as [[a|xs|bm]|] eqn:E; try done.
  destruct v as [a|xs|ov]; try done.
  rewrite deepmerge_single. apply (IHv ov bm); [done..|].
  by apply (get_Forall (fun v => distinct_keys v = true) m k).
Qed.

Lemma keeps_distinct_all o : keeps_distinct o.
Proof.
  induction o as [a|xs _|items IH] using value_ind';
    intros items' m [=] Ho Hm. subst items'.
  apply distinct_keys_dict in Ho as [_ Hall]. revert m Hm.
  induction items as [|[k v] rest IHrest]; intros m Hm; [done|].
  rewrite merge_items_cons.
  apply Forall_cons in IH as [IHv IH].
  apply Forall_cons in Hall as [Hv Hall].
  apply IHrest; [done..|]. by apply assign_distinct.
Qed.

(* distinct keys are kept: what [deepmerge] makes of dicts is a dict *)
Lemma deepmerge_distinct_keys (base : dict) (others : list dict) :
  distinct_keys (VDict base) = true →
  Forall (fun o => distinct_keys (VDict o) = true) others →
  distinct_keys (VDict (deepmerge base others)) = true.
Proof.
  unfold deepmerge, copy. intros Hb Ho. revert base Hb.
  induction Ho as [|o others Ho _ IH]; intros base Hb; [done|]. simpl.
  apply IH. by apply (keeps_distinct_all (VDict o) o base).
Qed.

(* an override whose every assignment leaves the mapping as it is *)
Lemma merge_items_stable items m :
  (∀ k v, (k, v) ∈ items → assign k v m = m) → merge_items items m = m.
Proof.
  induction items as [|[k v] rest IH]; intros H; [done|].
  rewrite merge_items_cons, (H k v) by left.
  apply IH. intros k' v' Hin. apply H. by right.
Qed.

Lemma settles_all o : settles o.
Proof.
  induction o as [a|xs _|items IH] using value_ind';
    intros items' [=] Ho. subst items'.
  apply distinct_keys_dict in Ho as [Hnd Hall].
  assert (∀ k v, (k, v) ∈ items → distinct_keys v = true ∧ settles v)
    as Hin.
  { intros k v Hkv. split.
    - by apply (proj1 (Forall_forall _ _) Hall (k, v)).
    - by apply (proj1 (Forall_forall _ _) IH (k, v)). }
  split.
  - apply merge_items_stable. intros k v Hkv.
    rewrite assign_set, (get_elem_of _ _ _ Hnd Hkv).
    destruct (Hin k v Hkv) as [Hv Hs]. apply set_same.
    rewrite (get_elem_of _ _ _ Hnd Hkv). f_equal.
    destruct v as [a|xs|ov]; try done. simpl.
    rewrite deepmerge_single. f_equal. symmetry. by apply (Hs ov).
  - intros m. apply merge_items_stable. intros k v Hkv.
    rewrite assign_set. apply set_same.
    rewrite merge_items_get, (get_elem_of _ _ _ Hnd Hkv) by done.
    f_equal. destruct (Hin k v Hkv) as [Hv Hs].
    destruct v as [a|xs|ov];
      [by destruct (get k m) as [[]|] | by destruct (get k m) as [[]|] |].
    destruct (Hs ov eq_refl Hv) as [Hidem Htwice].
    unfold merged at 1. unfold merged.
    destruct (get k m) as [[a|xs|bm]|]; rewrite ?deepmerge_single;
      f_equal; done.
Qed.

(** X4. Merging a dict into itself changes nothing:
    [deepmerge(a, a) == a]. *)
Theorem deepmerge_idempotent (a : dict) :
  distinct_keys (VDict a) = true → deepmerge a [a] = a.
Proof.
  intros Ha. rewrite deepmerge_single.
  by apply (settles_all (VDict a) a eq_refl Ha).
Qed.

(** X5. An override applied twice in a row does what it does applied
    once: [deepmerge(a, b, b) == deepmerge(a, b)]. *)
Theorem deepmerge_override_twice (a b : dict) :
  distinct_keys (VDict b) = true →
  deepmerge a [b; b] = deepmerge a [b].
Proof.
  intros Hb. unfold deepmerge, copy. simpl.
  by apply (settles_all (VDict b) b eq_refl Hb).
Qed.

Lemma set_fresh {V} (d : list (string * V)) k v :
  k ∉ keys d → set k v d = d ++ [(k, v)].
Proof.
  induction d as [|[k' v'] d IH]; simpl; [done|].
  intros [Hne Hk]%not_elem_of_cons.
  apply String.eqb_neq in Hne. rewrite Hne. by rewrite IH.
Qed.

Lemma update_fresh {V} (other : list (string * V)) : ∀ d,
  NoDup (keys other) → (∀ k, k ∈ keys other → k ∉ keys d) →
  update d other = d ++ other.
Proof.
  unfold update.
  induction other as [|[k v] other IH]; intros d Hnd Hd; simpl.
  - by rewrite app_nil_r.
  - simpl in Hnd. apply NoDup_cons in Hnd as [Hk Hnd].
    rewrite set_fresh by (apply Hd; left).
    rewrite IH, <- app_assoc; [done..|].
    intros k' Hk'. unfold keys. rewrite fmap_app.
    intros [?|Hx%list_elem_of_singleton]%elem_of_app; [|by subst].
    by apply (Hd k'); [right|].
Qed.

Lemma merge_items_fresh items : ∀ m,
  NoDup (keys items) → (∀ k, k ∈ keys items → k ∉ keys m) →
  merge_items items m = m ++ items.
Proof.
  induction items as [|[k v] rest IH]; intros m Hnd Hm.
  - by rewrite merge_items_nil, app_nil_r.
  - simpl in Hnd. apply NoDup_cons in Hnd as [Hk Hnd].
    assert (k ∉ keys m) as Hkm by (apply Hm; left).
    rewrite merge_items_cons, assign_set.
    apply get_None_notin in Hkm as Hg. rewrite Hg. simpl.
    rewrite set_fresh by done. rewrite IH, <- app_assoc; [done..|].
    intros k' Hk'. unfold keys. rewrite fmap_app.
    intros [?|Hx%list_elem_of_singleton]%elem_of_app; [|by subst].
    by apply (Hm k'); [right|].
Qed.

(** X2. An override whose keys the base lacks is appended to the base:
    the result is the base followed by the entries of the override, in
    the order of the override and with the values the override holds. *)
Theorem deepmerge_fresh_keys (a b : dict) :
  NoDup (keys b) → (∀ k, k ∈ keys b → k ∉ keys a) →
  deepmerge a [b] = a ++ b.
Proof.
  intros Hnd Hfresh. rewrite deepmerge_single. by apply merge_items_fresh.
Qed.

(** X3. The last override decides a key it holds a plain value for (no
    dict): whatever the base and the earlier overrides hold under the
    key, the result holds the value of the last override. *)
Theorem deepmerge_last_plain_wins (base : dict) (others : list dict)
    (o : dict) (k : string) (v : value) :
  NoDup (keys o) → get k o = Some v → Py.is_dict v = false →
  get k (deepmerge base (others ++ [o])) = Some v.
Proof.
  intros Hnd Hk Hv. rewrite <- deepmerge_app, deepmerge_single.
  rewrite merge_items_get, Hk by done. f_equal.
  destruct v as [a|xs|ov]; [| |discriminate Hv];
    unfold merged;
    destruct (get k (deepmerge base others)) as [[]|]; reflexivity.
Qed.

(** X6. Two overrides that share no key can be swapped: the result holds
    the same value under every key. *)
Theorem deepmerge_disjoint_commute (a b c : dict) (k : string) :
  NoDup (keys b) → NoDup (keys c) →
  (∀ x, x ∈ keys b → x ∉ keys c) →
  get k (deepmerge a [b; c]) = get k (deepmerge a [c; b]).
Proof.
  intros Hb Hc Hdisj. unfold deepmerge, copy. simpl.
  rewrite !merge_items_get by done.
  destruct (get k b) as [vb|] eqn:Eb, (get k c) as [vc|] eqn:Ec; try done.
  exfalso. eapply Hdisj; by eapply get_Some_in.
Qed.
End MergeMore.

Section MergeWitnesses.

Lemma deepmerge_fresh_keys_witness :
  Merge.deepmerge [("foo", VStr "bar")] [[("num", VInt 23); ("l", VDict [])]]
  = [("foo", VStr "bar"); ("num", VInt 23); ("l", VDict [])].
Proof.
  apply (deepmerge_fresh_keys [("foo", VStr "bar")]
           [("num", VInt 23); ("l", VDict [])]).
  - apply (bool_decide_unpack _). vm_compute. reflexivity.
  - intros k Hk. apply (bool_decide_unpack _).
    apply elem_of_cons in Hk as [->|Hk]; [vm_compute; reflexivity|].
    apply list_elem_of_singleton in Hk. subst k. vm_compute. reflexivity.
Defined.

Lemma deepmerge_last_plain_wins_witness :
  get "more" (Merge.deepmerge [("more", VDict [("cond", VStr "true")])]
                ([[("more", VDict [("additional", VInt 333)])]]
                 ++ [[("more", VList [VInt 1])]]))
  = Some (VList [VInt 1]).
Proof.
  apply deepmerge_last_plain_wins; [|reflexivity|reflexivity].
  apply (bool_decide_unpack _). vm_compute. reflexivity.
Defined.

Lemma deepmerge_idempotent_witness :
  let a := [("foo", VStr "bar");
            ("more", VDict [("cond", VStr "true"); ("last", VInt 424)])] in
  Merge.deepmerge a [a] = a.
Proof. intros a. exact (deepmerge_idempotent a eq_refl). Defined.

Lemma deepmerge_override_twice_witness :
  let a := [("foo", VStr "bar"); ("more", VDict [("cond", VStr "true")])] in
  let b := [("num", VInt 23); ("more", VDict [("additional", VInt 333)])] in
  Merge.deepmerge a [b; b] = Merge.deepmerge a [b].
Proof. intros a b. exact (deepmerge_override_twice a b eq_refl). Defined.

Lemma deepmerge_disjoint_commute_witness :
  let a := [("l0", VDict [("l1", VStr "L1")])] in
  let b := [("l0", VDict [("l2", VStr "L2")])] in
  let c := [("foo", VStr "bar")] in
  get "l0" (Merge.deepmerge a [b; c]) = get "l0" (Merge.deepmerge a [c; b]).
Proof.
  intros a b c. apply deepmerge_disjoint_commute.
  - apply (bool_decide_unpack _). vm_compute. reflexivity.
  - apply (bool_decide_unpack _). vm_compute. reflexivity.
  - intros x Hx. apply list_elem_of_singleton in Hx. subst x.
    apply (bool_decide_unpack _). vm_compute. reflexivity.
Defined.
End MergeWitnesses.

(** ** deepmerge, on the store *)

Section Sharing.
Import Heap.
Variable recur : heap → nat → list nat → option (heap * nat).
Hypothesis recur_keeps : ∀ h m os h' r,
  recur h m os = Some (h', r) → keeps (length h) h h' ∧ r = length h.

Lemma for_others_untouched r others k : ∀ h h' cur,
  r < length h →
  (∀ o, o ∈ others → o < r) →
  (∀ o items, o ∈ others → dict_at h o = Some items → k ∉ keys items) →
  for_others recur r others h = Some h' →
  dict_at h r = Some cur →
  ∃ dfin, dict_at h' r = Some dfin ∧ get k dfin = get k cur.
Proof.
  induction others as [|o rest IH]; intros h h' cur Hr Hlt Hk; simpl.
  - intros [= <-] ?. by exists cur.
  - destruct (dict_at h o) as [items|] eqn:Eo; simpl; [|done].
    destruct (for_items recur r items h) as [h1|] eqn:E; simpl; [|done].
    intros Hrest Hcur.
    destruct (for_items_untouched recur recur_keeps r items k h h1 cur)
      as (d1 & Hd1 & Hg1); [by eapply Hk; [left|] | done..|].
    pose proof (for_items_keeps recur recur_keeps r r items h h1
                  (le_n _) Hr E) as [L A].
    destruct (IH h1 h' d1) as (dfin & Hdf & Hg); [lia| | |done|done|].
    + intros o' Ho'. apply Hlt. by right.
    + intros o' items' Ho' Hd'. apply (Hk o'); [by right|].
      unfold dict_at in *. rewrite <- A; [done|]. apply Hlt. by right.
    + exists dfin. split; [done|]. congruence.
Qed.

Lemma plain_not_dict h v : plain h v → Heap.is_dict h v = false.
Proof.
  destruct v as [a|l]; [done|]. intros [xs Hl]. unfold Heap.is_dict.
  by rewrite Hl.
Qed.

Lemma merge_step_plain r h k v h' cur :
  r < length h →
  merge_step recur r h k v = Some h' →
  dict_at h r = Some cur →
  get k cur = None ∨ plain h v →
  dict_at h' r = Some (set k v cur).
Proof.
  intros Hr Hstep Hcur Hc. unfold merge_step in Hstep.
  rewrite Hcur in Hstep. simpl in Hstep.
  assert (store h r k v = Some h') as (d & Hd & ->)%store_Some.
  { destruct Hc as [Hg|Hp%plain_not_dict].
    - by rewrite Hg in Hstep.
    - destruct (get k cur) as [[a|bl]|]; try done.
      destruct v as [a|vl]; [done|].
      by rewrite Hp, andb_false_r in Hstep. }
  apply dict_at_Some in Hcur. rewrite Hcur in Hd. injection Hd as <-.
  apply dict_at_Some, list_lookup_insert_eq. done.
Qed.

Lemma merge_step_plain_kept r h k v h' x :
  r < length h →
  merge_step recur r h k v = Some h' →
  plain h x → plain h' x.
Proof.
  intros Hr Hstep. destruct x as [a|l]; [done|]. intros [xs Hl].
  exists xs. unfold merge_step in Hstep.
  destruct (dict_at h r) as [cur|] eqn:Hcur; simpl in Hstep; [|done].
  assert (∀ h1 y, h1 !! l = Some (OList xs) →
            store h1 r k y = Some h' → h' !! l = Some (OList xs)) as Hst.
  { intros h1 y H1 (d & Hd & ->)%store_Some.
    rewrite list_lookup_insert_ne; [done|]. intros <-. congruence. }
  destruct (get k cur) as [[a|bl]|]; [by eapply Hst| |by eapply Hst].
  destruct v as [a|vl]; [by eapply Hst|].
  destruct (Heap.is_dict h (HRef bl) && Heap.is_dict h (HRef vl));
    [|by eapply Hst].
  destruct (recur h bl [vl]) as [[h1 r1]|] eqn:E; simpl in Hstep; [|done].
  apply recur_keeps in E as [[_ A] ->].
  eapply Hst; [|exact Hstep]. rewrite A; [done|]. by eapply lookup_lt_Some.
Qed.

Lemma for_items_stored r items k v : ∀ h h' cur,
  NoDup (keys items) → r < length h →
  for_items recur r items h = Some h' →
  dict_at h r = Some cur →
  get k items = Some v →
  get k cur = None ∨ plain h v →
  ∃ dfin, dict_at h' r = Some dfin ∧ get k dfin = Some v.
Proof.
  induction items as [|[k0 v0] rest IH]; intros h h' cur Hnd Hr; simpl;
    [done|].
  simpl in Hnd. apply NoDup_cons in Hnd as [Hk0 Hnd].
  destruct (merge_step recur r h k0 v0) as [h1|] eqn:E; simpl; [|done].
  intros Hrest Hcur Hgi Hc.
  pose proof (merge_step_keeps recur recur_keeps 0 r h k0 v0 h1
                (Nat.le_0_l _) Hr E) as [L _].
  destruct (String.eqb k k0) eqn:Ek.
  - apply String.eqb_eq in Ek. subst k0. injection Hgi as ->.
    pose proof (merge_step_plain r h k v h1 cur Hr E Hcur Hc) as Hd1.
    destruct (for_items_untouched recur recur_keeps r rest k h1 h' _
                Hk0 ltac:(lia) Hrest Hd1) as (dfin & Hdf & Hget).
    exists dfin. by rewrite Hget, get_set_eq.
  - apply String.eqb_neq in Ek.
    destruct (merge_step_dict recur recur_keeps r h k0 v0 h1 cur Hr E Hcur)
      as (w & Hd1 & _).
    apply (IH h1 h' _ Hnd ltac:(lia) Hrest Hd1 Hgi).
    destruct Hc as [Hg|Hp].
    + left. by rewrite get_set_ne.
    + right. by eapply merge_step_plain_kept.
Qed.
End Sharing.

Section SharingClaims.
Import Heap.

(** X7. The copy [deepmerge] starts from is shallow: under a key that no
    override holds, the result holds the very value the base holds, the
    same reference when the value is an object. *)
Theorem deepmerge_shares_untouched_values fuel h m os h' r dm k :
  Heap.deepmerge fuel h m os = Some (h', r) →
  h !! m = Some (ODict dm) →
  (∀ o, o ∈ os → o < length h) →
  (∀ o items, o ∈ os → h !! o = Some (ODict items) → k ∉ keys items) →
  ∃ dfin, h' !! r = Some (ODict dfin) ∧ get k dfin = get k dm.
Proof.
  intros Hrun Hm Hlt Hk. destruct fuel as [|fuel]; [done|]. simpl in Hrun.
  unfold dict_at in Hrun at 1. rewrite Hm in Hrun. simpl in Hrun.
  destruct (for_others (Heap.deepmerge fuel) (length h) os (h ++ [ODict dm]))
    as [h2|] eqn:E; simpl in Hrun; [|done].
  injection Hrun as <- <-.
  destruct (for_others_untouched (Heap.deepmerge fuel) (deepmerge_keeps fuel)
              (length h) os k (h ++ [ODict dm]) h2 dm)
    as (dfin & Hdf & Hg); try done.
  - rewrite length_app. simpl. lia.
  - intros o items Ho Hd. apply (Hk o items Ho).
    apply dict_at_Some in Hd. rewrite lookup_app_l in Hd; [done|].
    by apply Hlt.
  - apply dict_at_Some. by apply list_lookup_middle.
  - exists dfin. split; [by apply dict_at_Some | done].
Qed.

(** X8. What an override brings is stored, not copied: under a key the
    base lacks, and under a key for which the override holds no dict, the
    result holds the very value of the override, the same reference when
    the value is an object. *)
Theorem deepmerge_shares_override_values fuel h m o h' r dm items k v :
  Heap.deepmerge fuel h m [o] = Some (h', r) →
  h !! m = Some (ODict dm) → h !! o = Some (ODict items) →
  NoDup (keys items) →
  get k items = Some v →
  get k dm = None ∨ plain h v →
  ∃ dfin, h' !! r = Some (ODict dfin) ∧ get k dfin = Some v.
Proof.
  intros Hrun Hm Ho Hnd Hg Hc. destruct fuel as [|fuel]; [done|].
  simpl in Hrun. unfold dict_at in Hrun. rewrite Hm in Hrun. simpl in Hrun.
  rewrite (lookup_app_l_Some _ _ _ _ Ho) in Hrun. simpl in Hrun.
  destruct (for_items (Heap.deepmerge fuel) (length h) items
              (h ++ [ODict dm])) as [h2|] eqn:E; simpl in Hrun; [|done].
  injection Hrun as <- <-.
  destruct (for_items_stored (Heap.deepmerge fuel) (deepmerge_keeps fuel)
              (length h) items k v (h ++ [ODict dm]) h2 dm)
    as (dfin & Hdf & Hget); try done.
  - rewrite length_app. simpl. lia.
  - apply dict_at_Some. by apply list_lookup_middle.
  - destruct Hc as [?|Hp]; [by left|right].
    destruct v as [a|l]; [done|]. destruct Hp as [xs Hl]. exists xs.
    by apply lookup_app_l_Some.
  - exists dfin. split; [by apply dict_at_Some | done].
Qed.

(** X9. For arguments that are trees in the store, [deepmerge] on the
    store returns, given enough fuel; the reference it returns is new and
    the tree it refers to is the dict [deepmerge] on values computes. *)
Theorem deepmerge_on_store_computes_merge h m os tm tos :
  repr nowhere h (HRef m) (VDict tm) →
  Forall2 (fun o to => repr nowhere h (HRef o) (VDict to)) os tos →
  ∃ n h',
    (∀ fuel, n ≤ fuel →
       Heap.deepmerge fuel h m os = Some (h', length h)) ∧
    repr nowhere h' (HRef (length h)) (VDict (Merge.deepmerge tm tos)).
Proof. apply deepmerge_refines. Qed.

Lemma deepmerge_shares_untouched_values_witness :
  let h := [ODict [("more", HRef 1); ("foo", HAtom (AStr "bar"))];
            ODict [("cond", HAtom (AStr "true"))];
            ODict [("foo", HAtom (AStr "not-bar"))]] in
  ∃ h' r dfin,
    Heap.deepmerge 1 h 0 [2] = Some (h', r) ∧
    h' !! r = Some (ODict dfin) ∧ get "more" dfin = Some (HRef 1).
Proof.
  intros h.
  destruct (Heap.deepmerge 1 h 0 [2]) as [[h' r]|] eqn:E;
    [|by vm_compute in E].
  destruct (deepmerge_shares_untouched_values 1 h 0 [2] h' r _ "more" E
              eq_refl) as (dfin & Hd & Hg).
  - intros o Ho. apply list_elem_of_singleton in Ho. subst o. simpl. lia.
  - intros o items Ho Hl. apply list_elem_of_singleton in Ho. subst o.
    injection Hl as <-. apply (bool_decide_unpack _). vm_compute.
    reflexivity.
  - by exists h', r, dfin.
Defined.

Lemma deepmerge_shares_override_values_witness :
  let h := [ODict [("hosts", HRef 1)];
            OList [HAtom (AStr "a")];
            ODict [("hosts", HRef 3); ("more", HRef 4)];
            OList [HAtom (AStr "b")];
            ODict [("cond", HAtom (AStr "true"))]] in
  ∃ h' r dfin,
    Heap.deepmerge 1 h 0 [2] = Some (h', r) ∧
    h' !! r = Some (ODict dfin) ∧
    get "hosts" dfin = Some (HRef 3) ∧ get "more" dfin = Some (HRef 4).
Proof.
  intros h.
  destruct (Heap.deepmerge 1 h 0 [2]) as [[h' r]|] eqn:E;
    [|by vm_compute in E].
  destruct (deepmerge_shares_override_values 1 h 0 2 h' r _ _ "hosts"
              (HRef 3) E eq_refl eq_refl) as (dfin & Hd & Hg).
  - apply (bool_decide_unpack _). vm_compute. reflexivity.
  - reflexivity.
  - right. by exists [HAtom (AStr "b")].
  - destruct (deepmerge_shares_override_values 1 h 0 2 h' r _ _ "more"
                (HRef 4) E eq_refl eq_refl) as (dfin' & Hd' & Hg').
    + apply (bool_decide_unpack _). vm_compute. reflexivity.
    + reflexivity.
    + by left.
    + exists h', r, dfin. rewrite Hd in Hd'. injection Hd' as <-. done.
Defined.

Lemma deepmerge_on_store_computes_merge_witness :
  let h := [ODict [("more", HRef 1)];
            ODict [("cond", HAtom (AStr "true"))];
            ODict [("more", HRef 3)];
            ODict [("additional", HAtom (AInt 333))]] in
  ∃ n h',
    (∀ fuel, n ≤ fuel → Heap.deepmerge fuel h 0 [2] = Some (h', 4)) ∧
    repr nowhere h' (HRef 4)
      (VDict [("more", VDict [("cond", VStr "true");
                              ("additional", VInt 333)])]).
Proof.
  intros h.
  apply (deepmerge_on_store_computes_merge h 0 [2]
           [("more", VDict [("cond", VStr "true")])]
           [[("more", VDict [("additional", VInt 333)])]]).
  - eapply repr_dict; [by intros [] | reflexivity |].
    repeat constructor.
    eapply repr_dict; [by intros [] | reflexivity |]. repeat constructor.
  - repeat constructor.
    eapply repr_dict; [by intros [] | reflexivity |].
    repeat constructor.
    eapply repr_dict; [by intros [] | reflexivity |]. repeat constructor.
Defined.
End SharingClaims.

(** ** Time stamps *)

Section TimeMore.
Import Time.

Lemma directive_f pd dt : directive pd "f" dt = pad 6 (wall dt mod usec).
Proof. unfold directive. by destruct (civil_from_days _) as [[y m] d]. Qed.

Section Machine.
Variable utcoffset_at : Z → Z.
Variable fold_at : Z → bool.
Variable mktime : datetime → Z.
Variable platform_directive : ascii → datetime → string.
Hypothesis mktime_local : ∀ t,
  utcoffset_at (mktime (fromtimestamp utcoffset_at fold_at t))
  = utcoffset_at t.

(** X10. The zone does not reach the microseconds: with [utc] set or not,
    "%f" renders the microseconds of the time stamp of the record, six
    digits. *)
Theorem formatTime_microseconds (utc : bool) (created : Z) :
  formatTime utcoffset_at fold_at mktime platform_directive utc created "%f"
  = pad 6 (created mod 1000000).
Proof.
  unfold formatTime.
  rewrite (astimezone_fromtimestamp _ _ _ mktime_local). simpl.
  rewrite directive_f, append_empty_r. cbn [wall]. f_equal.
  unfold usec. rewrite Z.mul_comm. apply Z_mod_plus_full.
Qed.
End Machine.

Lemma formatTime_microseconds_witness :
  formatTime (fun _ => 7200%Z) (fun _ => false) (fixed_mktime 7200)
    no_directive false 983588583000042 "%f"
  = pad 6 (983588583000042 mod 1000000).
Proof.
  exact (formatTime_microseconds (fun _ => 7200%Z) (fun _ => false)
           (fixed_mktime 7200) no_directive (fun _ => eq_refl)
           false 983588583000042).
Defined.
End TimeMore.

(** ** JSON records *)

Section JsonOrder.
Import Py Json.
Variable formatTime : bool → Z → string → string.
Variable self : CustomJsonFormatter.
Variable record : LogRecord.

Lemma assignments_update {V} (key : string → string) (val : string → V) fs :
  ∀ d, fold_left (fun lr f => set (key f) (val f) lr) fs d
       = update d (map (fun f => (key f, val f)) fs).
Proof. unfold update. induction fs as [|f fs IH]; intros d; simpl; done. Qed.

(** X11. The order of the JSON object.  When the static keys and the
    renamed keys of the template fields are all distinct, the object
    [format] builds has the static fields first, in their order, and
    then one entry per template field, in the order of the template. *)
Theorem format_in_order :
  NoDup (keys (static_fields self)) →
  NoDup (map (rename_key (rename_fields self)) (required_fields self)) →
  (∀ f, f ∈ required_fields self →
        rename_key (rename_fields self) f ∉ keys (static_fields self)) →
  format formatTime self record
  = static_fields self
    ++ map (fun f => (rename_key (rename_fields self) f,
                      field_value (prepare formatTime self record) f))
         (required_fields self).
Proof.
  intros Hs Hr Hdisj. unfold format, add_fields, JsonFormatter_add_fields.
  rewrite update_nil, assignments_update.
  assert (∀ k, k ∈ keys (map (fun f => (rename_key (rename_fields self) f,
                                        field_value
                                          (prepare formatTime self record) f))
                           (required_fields self))
               → k ∉ keys (static_fields self)) as Hfresh.
  { intros k. unfold keys at 1. rewrite <- list_fmap_compose.
    intros (f & -> & Hf)%list_elem_of_fmap. by apply Hdisj. }
  assert (NoDup (keys (map (fun f => (rename_key (rename_fields self) f,
                                      field_value
                                        (prepare formatTime self record) f))
                         (required_fields self)))) as Hnd.
  { unfold keys. rewrite <- list_fmap_compose. exact Hr. }
  rewrite (update_fresh (static_fields self) []); [|done|].
  - simpl. rewrite (update_fresh _ _ Hnd Hfresh). apply update_same.
    intros k v Hkv. apply get_elem_of; [|apply elem_of_app; by left].
    unfold keys. rewrite fmap_app. apply NoDup_app. split; [done|].
    split; [|done]. intros x Hx Hx'. by apply (Hfresh x).
  - intros k _. apply not_elem_of_nil.
Qed.
End JsonOrder.

Section JsonOrderWitness.
Import Py Json.

Lemma format_in_order_witness :
  let fm := {| Json.utc := true; datefmt := Time.DEFAULT_TIME_FMT;
               required_fields := ["levelname"; "message"];
               Json.rename_fields := Json.JSON_RENAME_FIELDS;
               Json.static_fields := [("program", VStr "svc")] |} in
  let r := {| created := 0; msg := "disk low";
              attrs := [("levelname", VStr "WARNING")] |} in
  format no_clock fm r
  = [("program", VStr "svc")]
    ++ map (fun f => (rename_key Json.JSON_RENAME_FIELDS f,
                      field_value (prepare no_clock fm r) f))
         ["levelname"; "message"].
Proof.
  intros fm r. apply (format_in_order no_clock fm r).
  - apply (bool_decide_unpack _). vm_compute. reflexivity.
  - apply (bool_decide_unpack _). vm_compute. reflexivity.
  - intros f Hf. apply (bool_decide_unpack _).
    apply elem_of_cons in Hf as [->|Hf]; [vm_compute; reflexivity|].
    apply list_elem_of_singleton in Hf. subst f. vm_compute. reflexivity.
Defined.
End JsonOrderWitness.

(** ** configure_logging *)

Section ConfigMore.
Import Logging Config.

Section Oracles.
Variable fo flo : value → bool.
Variable ho : dict → bool.
Variable afo : value → dict → bool.

(** X12. After a call without override fragment that returns, the named
    logger is the logger returned and is enabled; its one handler is the
    console handler, open, with the formatter "json" or "simple" as
    [json] says; handler and logger are both at the number [level]
    stands for. *)
Theorem configure_logging_levels a st st' lg :
  truthy (extra a) = false →
  configure_logging (dictConfig fo flo ho afo) getLogger a st
    = (st', Return lg) →
  lg = logger_key (name a) ∧
  ∃ h l, attached st' (name a) = [h] ∧ get lg (loggers st') = Some l ∧
         h_formatter h = Some (if json a then "json" else "simple") ∧
         h_closed h = false ∧ l_disabled l = false ∧
         ∀ z, checkLevel (level a) = Some z → h_level h = z ∧ l_level l = z.
Proof.
  intros Hex%merged_document_plain E.
  eapply (configure_logging_shape fo flo ho afo a _ _ (level a)
            (formatter_name a) (level a)) in E
    as (-> & _ & _ & Hat & (l & Hl & _ & Hd & Hlv) & _);
    try exact Hex; try reflexivity; [|apply formatter_name_nonempty].
  split; [done|]. eexists _, l. split; [exact Hat|]. split; [done|].
  split; [done|]. split; [done|]. split; [done|]. intros z Hz.
  split; [|by apply Hlv]. simpl. by rewrite Hz.
Qed.

(** X13. A call without override fragment that returns has closed every
    handler there was, whichever logger it is attached to; the console
    handler is the one new handler and the only named one. *)
Theorem configure_logging_closes_handlers a st st' lg :
  truthy (extra a) = false →
  configure_logging (dictConfig fo flo ho afo) getLogger a st
    = (st', Return lg) →
  (∀ i h, objects st !! i = Some h → objects st' !! i = Some (closed h)) ∧
  length (objects st') = S (length (objects st)) ∧
  registry st' = [("console", length (objects st))].
Proof.
  intros Hex%merged_document_plain E.
  eapply (configure_logging_shape fo flo ho afo a _ _ (level a)
            (formatter_name a) (level a)) in E as (_ & Ho & Hr & _);
    try exact Hex; try reflexivity; [|apply formatter_name_nonempty].
  split; [|split; [|done]].
  - intros i h Hi. rewrite Ho. apply lookup_app_l_Some.
    by rewrite list_lookup_fmap, Hi.
  - rewrite Ho, length_app, length_map. simpl. lia.
Qed.

(** X14. A call without override fragment that returns keeps every other
    logger: a logger that is no descendant of the named one has its
    level, its handlers and its propagate flag as before, and is enabled;
    the root logger keeps its flag. *)
Theorem configure_logging_other_loggers a st st' lg k l :
  truthy (extra a) = false →
  configure_logging (dictConfig fo flo ho afo) getLogger a st
    = (st', Return lg) →
  get k (loggers st) = Some l →
  k ≠ name a → k ≠ logger_key (name a) →
  is_prefix (name a ++ ".") k = false →
  ∃ l', get k (loggers st') = Some l' ∧
        l_level l' = l_level l ∧ l_handlers l' = l_handlers l ∧
        l_propagate l' = l_propagate l ∧
        l_disabled l' = if String.eqb k "root" then l_disabled l else false.
Proof.
  intros Hex%merged_document_plain E Hk Hn Hkey Hpre.
  eapply (configure_logging_shape fo flo ho afo a _ _ (level a)
            (formatter_name a) (level a)) in E as (-> & _ & _ & _ & _ & Hf);
    try exact Hex; try reflexivity; [|apply formatter_name_nonempty].
  rewrite (Hf k Hkey), Hk. simpl. eexists. split; [done|].
  unfold aside. rewrite Hpre, andb_false_r.
  destruct (String.eqb k "root") eqn:Er.
  - apply String.eqb_eq in Er as ->.
    rewrite bool_decide_eq_false_2; [done|]. by intros [? _].
  - apply String.eqb_neq in Er.
    rewrite bool_decide_eq_true_2; [done|].
    split; [done|]. split; [|done]. apply elem_of_app. left.
    apply list_elem_of_filter. split; [done|].
    apply elem_of_keys. by eauto.
Qed.

(** X15. A call without override fragment that returns, for a name
    that was there before, as a logger or as the place held for the
    parent of one, resets the loggers below it ("name.child") that were
    there too: level NOTSET, no handlers, propagating. *)
Theorem configure_logging_descendants a st st' lg k l :
  truthy (extra a) = false →
  configure_logging (dictConfig fo flo ho afo) getLogger a st
    = (st', Return lg) →
  get k (loggers st) = Some l →
  is_Some (get (name a) (loggers st)) ∨ name a ∈ placeholders st →
  name a ≠ "root" → k ≠ "root" → k ≠ name a →
  is_prefix (name a ++ ".") k = true →
  ∃ l', get k (loggers st') = Some l' ∧
        l_level l' = NOTSET ∧ l_handlers l' = [] ∧
        l_propagate l' = VBool true ∧ l_disabled l' = l_disabled l.
Proof.
  intros Hex%merged_document_plain E Hk Hin Hroot Hkr Hn Hpre.
  eapply (configure_logging_shape fo flo ho afo a _ _ (level a)
            (formatter_name a) (level a)) in E as (-> & _ & _ & _ & _ & Hf);
    try exact Hex; try reflexivity; [|apply formatter_name_nonempty].
  assert (k ≠ logger_key (name a)) as Hkey.
  { unfold logger_key. by destruct (String.eqb (name a) ""). }
  rewrite (Hf k Hkey), Hk. simpl. eexists. split; [done|].
  unfold aside. rewrite Hpre, andb_true_r.
  rewrite bool_decide_eq_true_2.
  - rewrite bool_decide_eq_true_2; [done|].
    apply elem_of_app. destruct Hin as [Hin|Hin]; [left | by right].
    apply list_elem_of_filter. split; [done|]. by apply elem_of_keys.
  - split; [done|]. split; [|done]. apply elem_of_app. left.
    apply list_elem_of_filter. split; [done|].
    apply elem_of_keys. by eauto.
Qed.

Lemma each_check_total {A} (p : A → bool) (e : A → error) l st :
  ∃ r, each (fun x => if p x then ret tt else raise (e x)) l st = (st, r).
Proof.
  induction l as [|x l [r IH]]; simpl; [by eexists|].
  unfold bind. destruct (p x); simpl; [|by eexists].
  rewrite IH. destruct r; by eexists.
Qed.


Lemma merged_document_console_level a lv :
  extra a = console_level lv → Py.is_dict lv = false →
  merged_document a
  = Some (set "handlers"
            (VDict [("console",
                     console_entry lv (if json a then "json" else "simple"))])
            (document a)).
Proof.
  intros He Hlv. unfold merged_document. rewrite He.
  destruct a as [n lvl f tf u j rf sf ex].
  destruct lv as [x|xs|d]; [| |done]; by destruct lvl.
Qed.

(** X17. The override fragment of the repository's test, for any plain
    level: extra = {"handlers": {"console": {"level": lv}}} changes the
    level of the console handler alone.  After a call that returns, the
    one handler of the named logger is at the number [lv] stands for,
    with the formatter [json] selects, and the logger is at [level]. *)
Theorem configure_logging_console_level a lv st st' lg :
  extra a = console_level lv → Py.is_dict lv = false →
  configure_logging (dictConfig fo flo ho afo) getLogger a st
    = (st', Return lg) →
  ∃ h l, attached st' (name a) = [h] ∧ get lg (loggers st') = Some l ∧
         h_formatter h = Some (if json a then "json" else "simple") ∧
         (∀ z, checkLevel lv = Some z → h_level h = z) ∧
         (∀ z, checkLevel (level a) = Some z → l_level l = z).
Proof.
  intros He Hlv E.
  eapply (configure_logging_shape fo flo ho afo a _ _ lv (formatter_name a)
            (level a))
    in E as (-> & _ & _ & Hat & (l & Hl & _ & Hd & Hl') & _);
    try exact (merged_document_console_level a lv He Hlv);
    try reflexivity; [|apply formatter_name_nonempty].
  eexists _, l. split; [exact Hat|]. split; [done|]. split; [done|].
  split; [|done]. intros z Hz. simpl. by rewrite Hz.
Qed.
End Oracles.

Lemma configure_logging_levels_witness :
  let st' := (run (with_level (defaults "app") (VStr "DEBUG")) initial).1 in
  ∃ h l, attached st' "app" = [h] ∧ get "app" (loggers st') = Some l ∧
         h_formatter h = Some "json" ∧
         h_closed h = false ∧ l_disabled l = false ∧
         h_level h = 10%Z ∧ l_level l = 10%Z.
Proof.
  intros st'.
  destruct (configure_logging_levels always always always always2
              (with_level (defaults "app") (VStr "DEBUG")) initial st' "app"
              eq_refl) as (_ & h & l & H1 & H2 & H3 & H4 & H5 & H6).
  - vm_compute. reflexivity.
  - exists h, l. destruct (H6 10%Z eq_refl) as [? ?]. done.
Defined.

Lemma configure_logging_closes_handlers_witness :
  let st' := (run (defaults "app") configured).1 in
  objects st' !! 0 = closed <$> (objects configured !! 0) ∧
  length (objects st') = 2 ∧ registry st' = [("console", 1)].
Proof.
  intros st'.
  destruct (configure_logging_closes_handlers always always always always2
              (defaults "app") configured st' "app" eq_refl)
    as (H1 & H2 & H3).
  - vm_compute. reflexivity.
  - split; [|done]. by apply H1.
Defined.

Lemma configure_logging_other_loggers_witness :
  let argv := with_level (defaults "lib") (VStr "ERROR") in
  let st' := (run argv configured).1 in
  ∃ l', get "app" (loggers st') = Some l' ∧
        l_level l' = 20%Z ∧ l_handlers l' = [0] ∧
        l_propagate l' = VBool true ∧ l_disabled l' = false.
Proof.
  intros argv st'.
  destruct (configure_logging_other_loggers always always always always2
              argv configured st' "lib" "app"
              {| l_level := 20; l_handlers := [0];
                 l_propagate := VBool true; l_disabled := false |} eq_refl)
    as (l' & H).
  - vm_compute. reflexivity.
  - vm_compute. reflexivity.
  - discriminate.
  - discriminate.
  - vm_compute. reflexivity.
  - by exists l'.
Defined.

(* a first call for "app.db" leaves a place held for "app" *)
Lemma configure_logging_descendants_witness :
  let st := (run (defaults "app.db") initial).1 in
  let st' := (run (defaults "app") st).1 in
  get "app" (loggers st) = None ∧
  ∃ l', get "app.db" (loggers st') = Some l' ∧
        l_level l' = NOTSET ∧ l_handlers l' = [] ∧
        l_propagate l' = VBool true ∧ l_disabled l' = false.
Proof.
  intros st st'. split; [reflexivity|].
  destruct (configure_logging_descendants always always always always2
              (defaults "app") st st' "app" "app.db"
              {| l_level := 20; l_handlers := [0];
                 l_propagate := VBool true; l_disabled := false |} eq_refl)
    as (l' & H).
  - vm_compute. reflexivity.
  - vm_compute. reflexivity.
  - right. apply (bool_decide_unpack _). vm_compute. reflexivity.
  - discriminate.
  - discriminate.
  - discriminate.
  - vm_compute. reflexivity.
  - by exists l'.
Defined.


Lemma configure_logging_console_level_witness :
  let st' := (run (with_extra (defaults "app")
                     (console_level (VStr "ERROR"))) initial).1 in
  ∃ h l, attached st' "app" = [h] ∧ get "app" (loggers st') = Some l ∧
         h_formatter h = Some "json" ∧
         h_level h = 40%Z ∧ l_level l = 20%Z.
Proof.
  intros st'.
  destruct (configure_logging_console_level always always always always2
              (with_extra (defaults "app") (console_level (VStr "ERROR")))
              (VStr "ERROR") initial st' "app" eq_refl eq_refl)
    as (h & l & H1 & H2 & H3 & H4 & H5).
  - vm_compute. reflexivity.
  - exists h, l. rewrite (H4 40%Z eq_refl), (H5 20%Z eq_refl). done.
Defined.
End ConfigMore.
